(** * TypeFuzz prototype: a type-directed random term generator and its driver

    Shallow embedding of [PUZZLE/TYPEFUZZ/TypeFuzzPrototype.cpp].

    - the mock [cvc5] name space (kinds, terms, the solver and its result);
    - the random source [std::mt19937 rng], behind a small interface;
    - the generators [generateInteger], [generateBoolean],
      [generateArithmetic] and [generateBooleanExpr], written in a state
      monad over the random source, with fuel for the recursion;
    - the driver [fuzz], whose effects (text sent to [std::cout] and calls
      into the solver) are recorded in program order. *)

From Stdlib Require Import ZArith List String Ascii Bool Lia.
From Stdlib Require Import DecimalString DecimalZ.
Import ListNotations.

Local Open Scope Z_scope.

(** [std::to_string(int)] and [std::cout << int]: decimal digits, with a
    leading minus sign for negative values. *)
Definition to_string (v : Z) : string := NilZero.string_of_int (Z.to_int v).

Definition endl : string := String "010"%char EmptyString.

(* ================================================================= *)
(** ** The cvc5 interface used by the fuzzer *)

Module cvc5.

Local Open Scope string_scope.

(** [enum class Kind]. *)
Inductive Kind : Type :=
| ADD | SUB | MULT | GT | LT | EQUAL | AND | OR | XOR.

(** The part of the solver API that builds terms.  The source calls it on
    its mock [Solver]; the comment at the top of the file says the real
    [<cvc5/cvc5.h>] is meant to take its place, so the fuzzer is written
    against the interface. *)
Class TermAPI (T : Type) : Type := {
  mkInteger : Z -> T;
  mkBoolean : bool -> T;
  mkTerm : Kind -> list T -> T;
  toString : T -> string
}.

(** [class Solver::Result]: an empty class; every answer is computed by
    its member functions.  [Result_toString] is its [toString]. *)
Inductive Result : Type := mkResult.

Definition isSat (r : Result) : bool := true.
Definition isUnsat (r : Result) : bool := negb (isSat r).
Definition Result_toString (r : Result) : string :=
  if isSat r then "sat" else "unsat".

(** [class Solver]: its only data member is [std::vector<Term> constraints]. *)
Record Solver (T : Type) : Type := mkSolver { constraints : list T }.
Arguments mkSolver {T} _.
Arguments constraints {T} _.

(** [Solver() = default]. *)
Definition Solver_new {T : Type} : Solver T := mkSolver [].

(** [setLogic] and [setOption] have empty bodies. *)
Definition setLogic {T : Type} (logic : string) (s : Solver T) : Solver T := s.
Definition setOption {T : Type} (option value : string) (s : Solver T) : Solver T := s.

(** [constraints.push_back(formula)]. *)
Definition assertFormula {T : Type} (formula : T) (s : Solver T) : Solver T :=
  mkSolver (constraints s ++ [formula])%list.

(** [return Result();] *)
Definition checkSat {T : Type} (s : Solver T) : Result * Solver T :=
  (mkResult, s).

(** [constraints.clear()]. *)
Definition resetAssertions {T : Type} (s : Solver T) : Solver T :=
  mkSolver [].

(** *** The mock terms of the source: a term is the string it prints as *)

Record Term : Type := mkTermOfString { value : string }.

Definition kind_str (kind : Kind) : string :=
  match kind with
  | ADD => "+" | SUB => "-" | MULT => "*"
  | GT => ">" | LT => "<" | EQUAL => "="
  | AND => "and" | OR => "or" | XOR => "xor"
  end.

(** The loop [for (child : children) result += " " + child.toString()]. *)
Fixpoint append_children (result : string) (children : list string) : string :=
  match children with
  | [] => result
  | child :: rest => append_children (result ++ " " ++ child) rest
  end.

Definition Mock_mkTerm (kind : Kind) (children : list Term) : Term :=
  let result := "(" ++ kind_str kind in
  let result := append_children result (map value children) in
  mkTermOfString (result ++ ")").

#[export] Instance Mock : TermAPI Term := {
  mkInteger v := mkTermOfString (to_string v);
  mkBoolean v := mkTermOfString (if v then "true" else "false");
  mkTerm := Mock_mkTerm;
  toString := value
}.

(** *** Terms as trees

    The tree of API calls that built a term.  The mock keeps only the
    printed form; the tree is what the typing and depth properties are
    about. *)

#[warnings="-register-all"]
Inductive Ast : Type :=
| IntLiteral (v : Z)
| BoolLiteral (b : bool)
| Operation (kind : Kind) (children : list Ast).

Fixpoint render (t : Ast) : string :=
  match t with
  | IntLiteral v => to_string v
  | BoolLiteral b => if b then "true" else "false"
  | Operation kind children =>
      append_children ("(" ++ kind_str kind) (map render children) ++ ")"
  end.

#[export] Instance Tree : TermAPI Ast := {
  mkInteger := IntLiteral;
  mkBoolean := BoolLiteral;
  mkTerm := Operation;
  toString := render
}.

End cvc5.
Import cvc5.

(* ================================================================= *)
(** ** The random source *)

(** What the fuzzer asks of [std::mt19937 rng]: construction from a 32-bit
    value, the call [rng()], and a draw through
    [std::uniform_int_distribution<int> dist(min, max)].  The C++ standard
    fixes the contract of the distribution, a value of the closed range,
    and leaves its algorithm to the implementation; the one of libstdc++
    is given below. *)
Class RandomSource (G : Type) : Type := {
  rng_seed : Z -> G;
  rng_call : G -> Z * G;
  dist_call : Z -> Z -> G -> Z * G
}.

(** The contracts of the two calls: [rng()] yields a 32-bit value, and the
    distribution a value of its closed range. *)
Class RandomSourceLaws (G : Type) `{RandomSource G} : Prop := {
  rng_call_range : forall g, 0 <= fst (rng_call g) < 2 ^ 32;
  dist_call_range : forall min max g,
      min <= max -> min <= fst (dist_call min max g) <= max
}.

(** *** std::uniform_int_distribution<int>

    [operator()(urng, param)] as libstdc++ has it (GCC 11 and later), for
    a generator [urng] whose values fill 32 bits, as those of
    [std::mt19937] do.  The range of the generator,
    [urngrange = 2^32 - 1], is compared with [urange = b - a]; a smaller
    range is served by [_S_nd<uint64_t>], the multiply-and-reject draw of
    Lemire, and the full range of [int] by the generator's value itself.
    Like the library's templates, the definitions take the generator as a
    parameter: [g] is its [operator()]. *)
Module uniform_int_distribution.

Section Urbg.

Context {E : Type} (g : E -> Z * E).

(** [_Up __threshold = -__range % __range], in [uint32_t]. *)
Definition threshold (range : Z) : Z := ((- range) mod 2 ^ 32) mod range.

(** [while (__low < __threshold)
       { __product = _Wp(__g()) * _Wp(__range); __low = _Up(__product); }].
    A value is turned down when the low half of the product is below the
    threshold, which is smaller than the range: for the range 201 of the
    fuzzer, 100 values of the 2^32.  The loop has no bound in the library;
    here it has [fuel] turns and keeps the last product after them. *)
Fixpoint redraw (fuel : nat) (range thr product : Z) (e : E) : Z * E :=
  match fuel with
  | O => (product, e)
  | S fuel' =>
      if product mod 2 ^ 32 <? thr
      then let (r, e') := g e in redraw fuel' range thr (r * range) e'
      else (product, e)
  end.

Definition redraw_limit : nat := 64.

(** [_S_nd<uint64_t>(g, range)]: the high half of [g() * range]. *)
Definition S_nd (range : Z) (e : E) : Z * E :=
  let (r, e1) := g e in
  let product := r * range in
  let (product', e2) :=
    if product mod 2 ^ 32 <? range
    then redraw redraw_limit range (threshold range) product e1
    else (product, e1) in
  (Z.shiftr product' 32, e2).

(** [dist(urng)] for [dist(min, max)] with [min <= max], as the constructor
    of the distribution requires.  With bounds of type [int] the range
    never exceeds the generator's, so the branch that combines several
    values of the generator is not taken. *)
Definition call (min max : Z) (e : E) : Z * E :=
  let urange := max - min in
  if urange <? 2 ^ 32 - 1
  then let (ret, e') := S_nd (urange + 1) e in (ret + min, e')
  else let (r, e') := g e in (r + min, e').

(** The value of the call number [n + 1] of the generator, and the
    generator after [n] calls. *)
Fixpoint nth_value (n : nat) (e : E) : Z :=
  match n with
  | O => fst (g e)
  | S n' => nth_value n' (snd (g e))
  end.

Fixpoint after (n : nat) (e : E) : E :=
  match n with
  | O => e
  | S n' => after n' (snd (g e))
  end.

End Urbg.

End uniform_int_distribution.

(** *** std::mt19937

    [mersenne_twister_engine<uint_fast32_t, 32, 624, 397, 31, 0x9908b0df,
    11, 0xffffffff, 7, 0x9d2c5680, 15, 0xefc60000, 18, 1812433253>], as
    the C++ standard defines it: 624 words of 32 bits and the position of
    the next word to hand out.  Words are kept in [Z]; every operation that
    could leave 32 bits is masked. *)
Module mt19937.

Definition word_mask : Z := 0xffffffff.
Definition upper_mask : Z := 0x80000000.
Definition lower_mask : Z := 0x7fffffff.

Record state : Type := mkState { x : list Z; p : nat }.

(** [x[i] = (1812433253 * (x[i-1] ^ (x[i-1] >> 30)) + i) mod 2^32]. *)
Fixpoint seed_words (n : nat) (i : Z) (prev : Z) : list Z :=
  match n with
  | O => []
  | S n' =>
      let xi := Z.land (1812433253 * Z.lxor prev (Z.shiftr prev 30) + i) word_mask in
      xi :: seed_words n' (i + 1) xi
  end.

Definition seed (value : Z) : state :=
  let x0 := Z.land value word_mask in
  mkState (x0 :: seed_words 623 1 x0) 624.

Fixpoint set_nth (l : list Z) (k : nat) (v : Z) : list Z :=
  match l, k with
  | [], _ => []
  | _ :: l', O => v :: l'
  | a :: l', S k' => a :: set_nth l' k' v
  end.

(** One step of the regeneration loop, in place:
    [y = (x[k] & upper) | (x[(k+1) % 624] & lower);
     x[k] = x[(k+397) % 624] ^ (y >> 1) ^ ((y & 1) ? 0x9908b0df : 0)]. *)
Definition twist_step (xs : list Z) (k : nat) : list Z :=
  let y := Z.lor (Z.land (nth k xs 0) upper_mask)
                 (Z.land (nth ((k + 1) mod 624) xs 0) lower_mask) in
  set_nth xs k
    (Z.lxor (Z.lxor (nth ((k + 397) mod 624) xs 0) (Z.shiftr y 1))
            (if Z.odd y then 0x9908b0df else 0)).

Definition twist (xs : list Z) : list Z := fold_left twist_step (seq 0 624) xs.

Definition temper (y : Z) : Z :=
  let y := Z.lxor y (Z.land (Z.shiftr y 11) 0xffffffff) in
  let y := Z.lxor y (Z.land (Z.shiftl y 7) 0x9d2c5680) in
  let y := Z.lxor y (Z.land (Z.shiftl y 15) 0xefc60000) in
  let y := Z.lxor y (Z.shiftr y 18) in
  Z.land y word_mask.

(** [operator()]. *)
Definition call (s : state) : Z * state :=
  let s := if (624 <=? p s)%nat then mkState (twist (x s)) 0 else s in
  (temper (nth (p s) (x s) 0), mkState (x s) (S (p s))).

(** The value of the call number [n + 1]. *)
Fixpoint nth_call (n : nat) (s : state) : Z :=
  match n with
  | O => fst (call s)
  | S n' => nth_call n' (snd (call s))
  end.

(** The values of the first [n] calls. *)
Fixpoint first_calls (n : nat) (s : state) : list Z :=
  match n with
  | O => []
  | S n' => let (r, s') := call s in r :: first_calls n' s'
  end.

(** [std::uniform_int_distribution<int> dist(min, max); dist(rng)] on this
    engine. *)
Definition dist (min max : Z) (s : state) : Z * state :=
  uniform_int_distribution.call call min max s.

End mt19937.

#[export] Instance StdMt19937 : RandomSource mt19937.state := {
  rng_seed := mt19937.seed;
  rng_call := mt19937.call;
  dist_call := mt19937.dist
}.

(* ================================================================= *)
(** ** The generators of [class TypeFuzz] *)

(** A computation that reads and advances the random source and may stop
    for lack of fuel. *)
Definition Gen (G A : Type) : Type := G -> option (A * G).

Definition ret {G A : Type} (a : A) : Gen G A := fun g => Some (a, g).

Definition bind {G A B : Type} (c : Gen G A) (k : A -> Gen G B) : Gen G B :=
  fun g => match c g with
           | Some (a, g') => k a g'
           | None => None
           end.

Definition out_of_fuel {G A : Type} : Gen G A := fun _ => None.

Declare Scope gen_scope.
Delimit Scope gen_scope with gen.
Notation "x <- c ;; k" := (bind c (fun x => k))
  (at level 61, c at next level, right associativity) : gen_scope.

Section Generators.

Context {G T : Type} `{RandomSource G} `{TermAPI T}.

Local Open Scope gen_scope.

(** [rng()]. *)
Definition draw : Gen G Z := fun g => Some (rng_call g).

(** [std::uniform_int_distribution<int> dist(min, max); dist(rng)]. *)
Definition draw_between (min max : Z) : Gen G Z :=
  fun g => Some (dist_call min max g).

(** [cvc5::Term generateInteger(int min = -100, int max = 100)]. *)
Definition generateInteger (min max : Z) : Gen G T :=
  value <- draw_between min max ;;
  ret (mkInteger value).

(** [cvc5::Term generateBoolean()]. *)
Definition generateBoolean : Gen G T :=
  r <- draw ;;
  let value := r mod 2 =? 1 in
  ret (mkBoolean value).

(** The test [depth > cap || (depth > 0 && rng() % m == 0)].  Both
    operators short-circuit: the engine is called only when
    [0 < depth <= cap]. *)
Definition stop_here (cap m depth : Z) : Gen G bool :=
  if depth >? cap then ret true
  else if depth >? 0 then (r <- draw ;; ret (r mod m =? 0))
  else ret false.

(** [switch (rng() % 3) { case 0: k0; case 1: k1; case 2: k2;
    default: kd }], for the value [r] of [rng()]. *)
Definition pick_kind (k0 k1 k2 kd : Kind) (r : Z) : Kind :=
  match r mod 3 with
  | 0 => k0
  | 1 => k1
  | 2 => k2
  | _ => kd
  end.

(** [cvc5::Term generateArithmetic(int depth = 0)]. *)
Fixpoint generateArithmetic (fuel : nat) (depth : Z) : Gen G T :=
  match fuel with
  | O => out_of_fuel
  | S fuel' =>
      stop <- stop_here 2 3 depth ;;
      if stop : bool then generateInteger (-100) 100
      else
        left <- generateArithmetic fuel' (depth + 1) ;;
        right <- generateArithmetic fuel' (depth + 1) ;;
        let children := [left; right] in
        r <- draw ;;
        ret (mkTerm (pick_kind ADD SUB MULT ADD r) children)
  end.

(** [cvc5::Term generateBooleanExpr(int depth = 0)]. *)
Fixpoint generateBooleanExpr (fuel : nat) (depth : Z) : Gen G T :=
  match fuel with
  | O => out_of_fuel
  | S fuel' =>
      stop <- stop_here 1 2 depth ;;
      if stop : bool then
        r <- draw ;;
        if r mod 2 =? 0 then generateBoolean
        else
          left <- generateArithmetic fuel' 0 ;;
          right <- generateArithmetic fuel' 0 ;;
          let children := [left; right] in
          r <- draw ;;
          ret (mkTerm (pick_kind GT LT EQUAL EQUAL r) children)
      else
        left <- generateBooleanExpr fuel' (depth + 1) ;;
        right <- generateBooleanExpr fuel' (depth + 1) ;;
        let children := [left; right] in
        r <- draw ;;
        ret (mkTerm (pick_kind AND OR XOR AND r) children)
  end.

(** *** The generators with the arithmetic cap as a parameter

    The source writes the cap of [generateArithmetic] as the literal [2].
    The same recursion over a cap [maxDepth], to state bounds in terms of
    the cap; [generateArithmetic_capped] and [generateBooleanExpr_capped]
    below show that the source's functions are the instances at 2. *)
Fixpoint generateArithmeticWith (maxDepth : Z) (fuel : nat) (depth : Z) : Gen G T :=
  match fuel with
  | O => out_of_fuel
  | S fuel' =>
      stop <- stop_here maxDepth 3 depth ;;
      if stop : bool then generateInteger (-100) 100
      else
        left <- generateArithmeticWith maxDepth fuel' (depth + 1) ;;
        right <- generateArithmeticWith maxDepth fuel' (depth + 1) ;;
        let children := [left; right] in
        r <- draw ;;
        ret (mkTerm (pick_kind ADD SUB MULT ADD r) children)
  end.

Fixpoint generateBooleanExprWith (maxDepth : Z) (fuel : nat) (depth : Z) : Gen G T :=
  match fuel with
  | O => out_of_fuel
  | S fuel' =>
      stop <- stop_here 1 2 depth ;;
      if stop : bool then
        r <- draw ;;
        if r mod 2 =? 0 then generateBoolean
        else
          left <- generateArithmeticWith maxDepth fuel' 0 ;;
          right <- generateArithmeticWith maxDepth fuel' 0 ;;
          let children := [left; right] in
          r <- draw ;;
          ret (mkTerm (pick_kind GT LT EQUAL EQUAL r) children)
      else
        left <- generateBooleanExprWith maxDepth fuel' (depth + 1) ;;
        right <- generateBooleanExprWith maxDepth fuel' (depth + 1) ;;
        let children := [left; right] in
        r <- draw ;;
        ret (mkTerm (pick_kind AND OR XOR AND r) children)
  end.

End Generators.

(* ================================================================= *)
(** ** The driver *)

(** The data members of [class TypeFuzz]. *)
Record TypeFuzz (G T : Type) : Type := mkTypeFuzz { solver : Solver T; rng : G }.
Arguments mkTypeFuzz {G T} _ _.
Arguments solver {G T} _.
Arguments rng {G T} _.

(** What a run does to the outside, in program order: text sent to
    [std::cout] and the calls into the solver. *)
Inductive Event (T : Type) : Type :=
| Cout (s : string)
| CallAssertFormula (formula : T)
| CallCheckSat
| CallResetAssertions.
Arguments Cout {T} _.
Arguments CallAssertFormula {T} _.
Arguments CallCheckSat {T}.
Arguments CallResetAssertions {T}.

(** A member function of [TypeFuzz]: it reads and updates the object,
    records its events, and may stop for lack of fuel. *)
Definition Prog (G T A : Type) : Type :=
  TypeFuzz G T -> option (list (Event T) * A * TypeFuzz G T).

Definition pret {G T A : Type} (a : A) : Prog G T A := fun tf => Some ([], a, tf).

Definition pbind {G T A B : Type} (c : Prog G T A) (k : A -> Prog G T B) : Prog G T B :=
  fun tf =>
    match c tf with
    | None => None
    | Some (e1, a, tf1) =>
        match k a tf1 with
        | None => None
        | Some (e2, b, tf2) => Some ((e1 ++ e2)%list, b, tf2)
        end
    end.

Declare Scope prog_scope.
Delimit Scope prog_scope with prog.
Notation "x <- c ;; k" := (pbind c (fun x => k))
  (at level 61, c at next level, right associativity) : prog_scope.
Notation "c ;; k" := (pbind c (fun _ => k))
  (at level 61, right associativity) : prog_scope.

Section Driver.

Context {G T : Type} `{RandomSource G} `{TermAPI T}.

Local Open Scope string_scope.
Local Open Scope prog_scope.

(** [TypeFuzz() : rng(std::random_device{}())], with the two (empty) solver
    settings of its body.  [entropy] is the value [std::random_device]
    returned: it comes from the system, not from the caller. *)
Definition TypeFuzz_new (entropy : Z) : TypeFuzz G T :=
  mkTypeFuzz (setOption "produce-models" "true" (setLogic "ALL" Solver_new))
             (rng_seed entropy).

Definition cout (s : string) : Prog G T unit := fun tf => Some ([Cout s], tt, tf).

(** A call of a generator: only [rng] advances. *)
Definition generate (c : Gen G T) : Prog G T T :=
  fun tf =>
    match c (rng tf) with
    | None => None
    | Some (t, g) => Some ([], t, mkTypeFuzz (solver tf) g)
    end.

Definition call_assertFormula (formula : T) : Prog G T unit :=
  fun tf => Some ([CallAssertFormula formula], tt,
                  mkTypeFuzz (assertFormula formula (solver tf)) (rng tf)).

Definition call_checkSat : Prog G T Result :=
  fun tf => let (result, s) := checkSat (solver tf) in
            Some ([CallCheckSat], result, mkTypeFuzz s (rng tf)).

Definition call_resetAssertions : Prog G T unit :=
  fun tf => Some ([CallResetAssertions], tt,
                  mkTypeFuzz (resetAssertions (solver tf)) (rng tf)).

Definition rule : string := "----------------------------------------------".
Definition double_rule : string := "==============================================".

(** [for (int i = 0; i < constraints_per_test; ++i) { ... }], with [n]
    iterations left to run. *)
Fixpoint for_constraints (fuel n : nat) (i : Z) (constraints : list T)
  : Prog G T (list T) :=
  match n with
  | O => pret constraints
  | S n' =>
      constraint <- generate (generateBooleanExpr fuel 0) ;;
      let constraints := (constraints ++ [constraint])%list in
      call_assertFormula constraint ;;
      cout ("  Constraint " ++ to_string i ++ ": " ++ toString constraint ++ endl) ;;
      for_constraints fuel n' (i + 1) constraints
  end.

(** The body of the outer loop for one [test_num]. *)
Definition test_case (fuel : nat) (test_num constraints_per_test : Z)
  : Prog G T (list T) :=
  cout ("Test Case " ++ to_string (test_num + 1) ++ ":" ++ endl) ;;
  cout (rule ++ endl) ;;
  constraints <- for_constraints fuel (Z.to_nat constraints_per_test) 0 [] ;;
  result <- call_checkSat ;;
  cout ("  Satisfiability: " ++ Result_toString result ++ endl) ;;
  (if isSat result
   then cout ("  SATISFIABLE - Constraints are consistent" ++ endl)
   else cout ("  UNSATISFIABLE - Constraints are inconsistent" ++ endl)) ;;
  cout (rule ++ endl ++ endl) ;;
  call_resetAssertions ;;
  pret constraints.

(** [for (int test_num = 0; test_num < num_tests; ++test_num) { ... }],
    with [n] iterations left to run; it returns the constraint vector of
    each test case. *)
Fixpoint for_tests (fuel n : nat) (test_num constraints_per_test : Z)
  : Prog G T (list (list T)) :=
  match n with
  | O => pret []
  | S n' =>
      constraints <- test_case fuel test_num constraints_per_test ;;
      rest <- for_tests fuel n' (test_num + 1) constraints_per_test ;;
      pret (constraints :: rest)
  end.

(** [void fuzz(int num_tests = 5, int constraints_per_test = 3)].  A counted
    loop [for (int i = 0; i < n; ++i)] runs [Z.to_nat n] times: not at all
    when [n <= 0]. *)
Definition fuzz (fuel : nat) (num_tests constraints_per_test : Z)
  : Prog G T (list (list T)) :=
  cout ("TypeFuzz Prototype - My C++ Implementation" ++ endl) ;;
  cout (double_rule ++ endl) ;;
  cout ("Using cvc5 C++ API for constraint generation and solving" ++ endl ++ endl) ;;
  tests <- for_tests fuel (Z.to_nat num_tests) 0 constraints_per_test ;;
  cout (double_rule ++ endl) ;;
  cout ("TypeFuzz completed " ++ to_string num_tests ++ " test cases" ++ endl) ;;
  cout ("Note: This uses mock cvc5 classes for demonstration." ++ endl) ;;
  cout ("      Replace with #include <cvc5/cvc5.h> for real usage." ++ endl) ;;
  pret tests.

End Driver.

(** [int main()]: [TypeFuzz fuzzer; fuzzer.fuzz(3, 2);]. *)
Definition main (fuel : nat) (entropy : Z)
  : option (list (Event Term) * list (list Term) * TypeFuzz mt19937.state Term) :=
  fuzz fuel 3 2 (TypeFuzz_new entropy).

(** The text a run wrote to [std::cout]. *)
Fixpoint stdout {T : Type} (trace : list (Event T)) : string :=
  match trace with
  | [] => EmptyString
  | Cout s :: rest => s ++ stdout rest
  | _ :: rest => stdout rest
  end.

(** The calls a run made into the solver. *)
Fixpoint solver_calls {T : Type} (trace : list (Event T)) : list (Event T) :=
  match trace with
  | [] => []
  | Cout _ :: rest => solver_calls rest
  | e :: rest => e :: solver_calls rest
  end.

(* ================================================================= *)
(** ** Types and depth of terms *)

(** The two value categories of the term language. *)
Inductive Sort : Type := Arithmetic | Boolean.

Definition Sort_eqb (a b : Sort) : bool :=
  match a, b with
  | Arithmetic, Arithmetic | Boolean, Boolean => true
  | _, _ => false
  end.

(** What an operator takes and what it yields. *)
Definition operand_sort (kind : Kind) : Sort :=
  match kind with
  | ADD | SUB | MULT | GT | LT | EQUAL => Arithmetic
  | AND | OR | XOR => Boolean
  end.

Definition result_sort (kind : Kind) : Sort :=
  match kind with
  | ADD | SUB | MULT => Arithmetic
  | GT | LT | EQUAL | AND | OR | XOR => Boolean
  end.

Definition is_arithmetic_kind (kind : Kind) : bool :=
  match kind with ADD | SUB | MULT => true | _ => false end.

Definition is_comparison_kind (kind : Kind) : bool :=
  match kind with GT | LT | EQUAL => true | _ => false end.

Definition is_connective_kind (kind : Kind) : bool :=
  match kind with AND | OR | XOR => true | _ => false end.

(** The recursive type check: an operation is typed when it has exactly
    two children, both typed, of the sort its kind takes. *)
Fixpoint typeOf (t : Ast) : option Sort :=
  match t with
  | IntLiteral _ => Some Arithmetic
  | BoolLiteral _ => Some Boolean
  | Operation kind children =>
      match children with
      | [a; b] =>
          match typeOf a, typeOf b with
          | Some sa, Some sb =>
              if Sort_eqb sa (operand_sort kind) && Sort_eqb sb (operand_sort kind)
              then Some (result_sort kind)
              else None
          | _, _ => None
          end
      | _ => None
      end
  end.

(** An integer literal or an [ADD], [SUB] or [MULT] operation. *)
Definition is_arithmetic_term (t : Ast) : bool :=
  match t with
  | IntLiteral _ => true
  | BoolLiteral _ => false
  | Operation kind _ => is_arithmetic_kind kind
  end.

(** A Boolean literal, a comparison or a connective. *)
Definition is_boolean_term (t : Ast) : bool :=
  match t with
  | IntLiteral _ => false
  | BoolLiteral _ => true
  | Operation kind _ => is_comparison_kind kind || is_connective_kind kind
  end.

(** [subterm u t]: [u] occurs in [t]. *)
Inductive subterm : Ast -> Ast -> Prop :=
| subterm_here : forall t, subterm t t
| subterm_child : forall u kind children c,
    In c children -> subterm u c -> subterm u (Operation kind children).

(** Depth of a tree: 0 for a literal, one more than its deepest child for
    an operation (the number of edges on the longest path from the root). *)
Fixpoint term_depth (t : Ast) : nat :=
  match t with
  | IntLiteral _ | BoolLiteral _ => O
  | Operation _ children => S (list_max (map term_depth children))
  end.

Definition is_literal (t : Ast) : bool :=
  match t with
  | IntLiteral _ => true
  | _ => false
  end.

(* ================================================================= *)
(** ** A campaign, read off its results

    Reference functions: the terms a campaign is expected to generate and
    the events it is expected to produce, as functions of those terms.  The
    driver above is compared with them. *)

Section Campaign.

Context {G T : Type} `{RandomSource G} `{TermAPI T}.

Local Open Scope string_scope.

(** [n] successive calls of [generateBooleanExpr()]. *)
Fixpoint boolean_terms (fuel n : nat) (g : G) : option (list T * G) :=
  match n with
  | O => Some ([], g)
  | S n' =>
      match generateBooleanExpr fuel 0 g with
      | None => None
      | Some (t, g1) =>
          match boolean_terms fuel n' g1 with
          | None => None
          | Some (ts, g2) => Some (t :: ts, g2)
          end
      end
  end.

(** [n] groups of [k] successive calls each. *)
Fixpoint campaign_terms (fuel n k : nat) (g : G) : option (list (list T) * G) :=
  match n with
  | O => Some ([], g)
  | S n' =>
      match boolean_terms fuel k g with
      | None => None
      | Some (ts, g1) =>
          match campaign_terms fuel n' k g1 with
          | None => None
          | Some (tss, g2) => Some (ts :: tss, g2)
          end
      end
  end.

(** The events of one test case whose constraints are [constraints]. *)
Fixpoint constraint_events (i : Z) (constraints : list T) : list (Event T) :=
  match constraints with
  | [] => []
  | c :: rest =>
      CallAssertFormula c
        :: Cout ("  Constraint " ++ to_string i ++ ": " ++ toString c ++ endl)
        :: constraint_events (i + 1) rest
  end.

Definition test_events (test_num : Z) (constraints : list T) : list (Event T) :=
  ([ Cout ("Test Case " ++ to_string (test_num + 1) ++ ":" ++ endl);
     Cout (rule ++ endl) ]
   ++ constraint_events 0 constraints
   ++ [ CallCheckSat;
        Cout ("  Satisfiability: " ++ "sat" ++ endl);
        Cout ("  SATISFIABLE - Constraints are consistent" ++ endl);
        Cout (rule ++ endl ++ endl);
        CallResetAssertions ])%list.

Fixpoint tests_events (test_num : Z) (tests : list (list T)) : list (Event T) :=
  match tests with
  | [] => []
  | constraints :: rest =>
      (test_events test_num constraints ++ tests_events (test_num + 1) rest)%list
  end.

Definition header_events : list (Event T) :=
  [ Cout ("TypeFuzz Prototype - My C++ Implementation" ++ endl);
    Cout (double_rule ++ endl);
    Cout ("Using cvc5 C++ API for constraint generation and solving" ++ endl ++ endl) ].

Definition footer_events (num_tests : Z) : list (Event T) :=
  [ Cout (double_rule ++ endl);
    Cout ("TypeFuzz completed " ++ to_string num_tests ++ " test cases" ++ endl);
    Cout ("Note: This uses mock cvc5 classes for demonstration." ++ endl);
    Cout ("      Replace with #include <cvc5/cvc5.h> for real usage." ++ endl) ].

(** The solver calls of one test case. *)
Definition test_solver_calls (constraints : list T) : list (Event T) :=
  (map CallAssertFormula constraints ++ [CallCheckSat; CallResetAssertions])%list.

End Campaign.

(** The line of the [else] branch of [if (result.isSat())]. *)
Definition unsat_line : string :=
  ("  UNSATISFIABLE - Constraints are inconsistent" ++ endl)%string.

Definition sat_line : string :=
  ("  Satisfiability: sat" ++ endl)%string.

(** The [std::cout] strings of a trace, one per statement. *)
Fixpoint cout_lines {T : Type} (trace : list (Event T)) : list string :=
  match trace with
  | [] => []
  | Cout s :: rest => s :: cout_lines rest
  | _ :: rest => cout_lines rest
  end.

(** The line of the [then] branch. *)
Definition consistent_line : string :=
  ("  SATISFIABLE - Constraints are consistent" ++ endl)%string.

(** How many [std::cout] statements of a trace wrote exactly [line]. *)
Definition count_line {T : Type} (line : string) (trace : list (Event T)) : nat :=
  List.length (filter (String.eqb line) (cout_lines trace)).

(** *** A second random source: an engine with a call counter

    It hands out the values of the engine it wraps and counts the calls. *)
Module Counted.

Definition state : Type := (nat * mt19937.state)%type.

Definition seed (value : Z) : state := (O, mt19937.seed value).

Definition call (s : state) : Z * state :=
  let (r, e) := mt19937.call (snd s) in (r, (S (fst s), e)).

Definition dist (min max : Z) (s : state) : Z * state :=
  let (r, e) := mt19937.dist min max (snd s) in (r, (S (fst s), e)).

Definition Source : RandomSource state := {|
  rng_seed := seed;
  rng_call := call;
  dist_call := dist
|}.

End Counted.

(* ================================================================= *)
(** ** Fuel that suffices *)

(** [generateArithmetic] recurses while [depth <= maxDepth]: from [depth]
    the chain of calls has at most [maxDepth + 1 - depth] links above the
    call that returns a literal. *)
Definition arithmetic_fuel (maxDepth depth : Z) : nat :=
  S (Z.to_nat (maxDepth + 1 - depth)).

(** [generateBooleanExpr] recurses while [depth <= 1], and its last call
    may start [generateArithmetic] at depth 0. *)
Definition boolean_fuel (maxDepth depth : Z) : nat :=
  (S (Z.to_nat (2 - depth)) + arithmetic_fuel maxDepth 0)%nat.

(* ================================================================= *)
(** ** Two runs side by side *)

(** Two random sources hand out the same values from states related by
    [RG], and stay related. *)
Definition same_draws {G1 G2 : Type} `{RandomSource G1} `{RandomSource G2}
    (RG : G1 -> G2 -> Prop) : Prop :=
  forall g1 g2, RG g1 g2 ->
    (fst (rng_call g1) = fst (rng_call g2) /\
     RG (snd (rng_call g1)) (snd (rng_call g2))) /\
    (forall min max,
        fst (dist_call min max g1) = fst (dist_call min max g2) /\
        RG (snd (dist_call min max g1)) (snd (dist_call min max g2))).

(** Two term APIs build terms related by [RT] from related arguments, and
    related terms print alike. *)
Definition same_terms {T1 T2 : Type} `{TermAPI T1} `{TermAPI T2}
    (RT : T1 -> T2 -> Prop) : Prop :=
  (forall v, RT (mkInteger v) (mkInteger v)) /\
  (forall b, RT (mkBoolean b) (mkBoolean b)) /\
  (forall kind l1 l2, Forall2 RT l1 l2 -> RT (mkTerm kind l1) (mkTerm kind l2)) /\
  (forall t1 t2, RT t1 t2 -> toString t1 = toString t2).

(** Two results of generator runs: both out of fuel, or related values
    and related engines. *)
Definition related_runs {G1 G2 A1 A2 : Type} (RG : G1 -> G2 -> Prop)
    (RA : A1 -> A2 -> Prop) (r1 : option (A1 * G1)) (r2 : option (A2 * G2)) : Prop :=
  match r1, r2 with
  | Some (a1, g1), Some (a2, g2) => RA a1 a2 /\ RG g1 g2
  | None, None => True
  | _, _ => False
  end.

(* ================================================================= *)
(** ** Sequences of solver calls *)

(** [formulas] asserted one after the other. *)
Definition assert_all {T : Type} (formulas : list T) (s : Solver T) : Solver T :=
  fold_left (fun s f => assertFormula f s) formulas s.

(** [n] calls of [checkSat] in a row: the results and the final solver. *)
Fixpoint check_repeatedly {T : Type} (n : nat) (s : Solver T)
  : list Result * Solver T :=
  match n with
  | O => ([], s)
  | S n' =>
      let (r, s1) := checkSat s in
      let (rs, s2) := check_repeatedly n' s1 in
      (r :: rs, s2)
  end.

(* ================================================================= *)
(** ** The shape of printed terms *)

(** Scan a string with [open] parentheses pending: ["("] opens one, [")"]
    closes one and fails when none is pending. *)
Fixpoint paren_scan (s : string) (open : nat) : option nat :=
  match s with
  | EmptyString => Some open
  | String c rest =>
      if Ascii.eqb c "("%char then paren_scan rest (S open)
      else if Ascii.eqb c ")"%char then
             match open with
             | O => None
             | S n => paren_scan rest n
             end
           else paren_scan rest open
  end.

(** Every [")"] closes an earlier ["("] and none is left open. *)
Definition balanced (s : string) : bool :=
  match paren_scan s O with
  | Some O => true
  | _ => false
  end.

Fixpoint string_forall (p : ascii -> bool) (s : string) : bool :=
  match s with
  | EmptyString => true
  | String c rest => p c && string_forall p rest
  end.

(** A space or a parenthesis: what separates the tokens of a printed
    term. *)
Definition is_delimiter (c : ascii) : bool :=
  Ascii.eqb c " "%char || Ascii.eqb c "("%char || Ascii.eqb c ")"%char.

Definition is_token_char (c : ascii) : bool := negb (is_delimiter c).

(** The children of an operation, each after a space. *)
Fixpoint spaced (children : list string) : string :=
  match children with
  | [] => EmptyString
  | child :: rest => (" " ++ child ++ spaced rest)%string
  end.

(** Number of nodes of a tree. *)
Fixpoint term_size (t : Ast) : nat :=
  match t with
  | IntLiteral _ | BoolLiteral _ => 1%nat
  | Operation _ children => S (list_sum (map term_size children))
  end.

(* ================================================================= *)
(** ** Reading a printed term back

    The source prints terms and never reads them.  This reader is the
    inverse the printed form admits; it serves to show that a mock term,
    which keeps only its string, still determines the tree that was
    built. *)

(** The longest prefix without a delimiter, and what follows it. *)
Fixpoint take_token (s : string) : string * string :=
  match s with
  | EmptyString => (EmptyString, EmptyString)
  | String c rest =>
      if is_delimiter c then (EmptyString, s)
      else let (token, r) := take_token rest in (String c token, r)
  end.

Definition kind_of_token (token : string) : option Kind :=
  if String.eqb token "+" then Some ADD
  else if String.eqb token "-" then Some SUB
  else if String.eqb token "*" then Some MULT
  else if String.eqb token ">" then Some GT
  else if String.eqb token "<" then Some LT
  else if String.eqb token "=" then Some EQUAL
  else if String.eqb token "and" then Some AND
  else if String.eqb token "or" then Some OR
  else if String.eqb token "xor" then Some XOR
  else None.

Definition literal_of_token (token : string) : option Ast :=
  if String.eqb token "true" then Some (BoolLiteral true)
  else if String.eqb token "false" then Some (BoolLiteral false)
  else option_map (fun d => IntLiteral (Z.of_int d)) (NilZero.int_of_string token).

(** What follows an opening parenthesis, if the string starts with one. *)
Definition strip_open (s : string) : option string :=
  match s with
  | String c rest => if Ascii.eqb c "("%char then Some rest else None
  | EmptyString => None
  end.

(** [read_term] reads one term off the front of a string; [read_children]
    reads the children of an operation up to its closing parenthesis. *)
Fixpoint read_term (fuel : nat) (s : string) : option (Ast * string) :=
  match fuel with
  | O => None
  | S fuel' =>
      match strip_open s with
      | Some rest =>
          let (token, r) := take_token rest in
          match kind_of_token token with
          | None => None
          | Some kind =>
              match read_children fuel' r with
              | Some (children, r') => Some (Operation kind children, r')
              | None => None
              end
          end
      | None =>
          let (token, r) := take_token s in
          option_map (fun t => (t, r)) (literal_of_token token)
      end
  end
with read_children (fuel : nat) (s : string) : option (list Ast * string) :=
  match fuel with
  | O => None
  | S fuel' =>
      match s with
      | EmptyString => None
      | String c rest =>
          if Ascii.eqb c ")"%char then Some ([], rest)
          else if Ascii.eqb c " "%char then
                 match read_term fuel' rest with
                 | Some (child, r) =>
                     match read_children fuel' r with
                     | Some (children, r') => Some (child :: children, r')
                     | None => None
                     end
                 | None => None
                 end
               else None
      end
  end.

(** A whole string as one term. *)
Definition parse (s : string) : option Ast :=
  match read_term (String.length s) s with
  | Some (t, EmptyString) => Some t
  | _ => None
  end.

(** Fuel that suffices to read a term back. *)
Fixpoint read_fuel (t : Ast) : nat :=
  match t with
  | IntLiteral _ | BoolLiteral _ => 1%nat
  | Operation _ children =>
      S (S (List.length children + list_max (map read_fuel children)))
  end.

(** The string is empty or starts with a delimiter. *)
Definition starts_delimited (s : string) : bool :=
  match s with
  | EmptyString => true
  | String c _ => is_delimiter c
  end.

(** A decimal digit or a minus sign. *)
Definition is_number_char (c : ascii) : bool :=
  (Ascii.eqb c "-" || Ascii.eqb c "0" || Ascii.eqb c "1" || Ascii.eqb c "2"
   || Ascii.eqb c "3" || Ascii.eqb c "4" || Ascii.eqb c "5" || Ascii.eqb c "6"
   || Ascii.eqb c "7" || Ascii.eqb c "8" || Ascii.eqb c "9")%char.

(* ================================================================= *)
(** ** Bounds on the size of generated terms *)

(** Nodes of a full binary tree of the given depth. *)
Fixpoint full_size (levels : nat) : nat :=
  match levels with
  | O => 1%nat
  | S m => S (2 * full_size m)
  end.

(** Nodes of the largest Boolean term with [levels] levels of connectives
    above comparisons of two full arithmetic trees of depth 3. *)
Fixpoint boolean_full_size (levels : nat) : nat :=
  match levels with
  | O => S (2 * full_size 3)
  | S m => S (2 * boolean_full_size m)
  end.

Definition is_operation (t : Ast) : bool :=
  match t with
  | Operation _ _ => true
  | _ => false
  end.

(** Characters of the longest arithmetic term of the given depth: literals
    of four characters, a one-character operator. *)
Fixpoint arithmetic_length (levels : nat) : nat :=
  match levels with
  | O => 4%nat
  | S m => (5 + 2 * arithmetic_length m)%nat
  end.

(** Characters of the longest Boolean term with [levels] levels of
    connectives, of up to three characters, above comparisons. *)
Fixpoint boolean_length (levels : nat) : nat :=
  match levels with
  | O => (5 + 2 * arithmetic_length 3)%nat
  | S m => (7 + 2 * boolean_length m)%nat
  end.

(* ================================================================= *)
(** ** What each [checkSat] sees *)

(** Replay the solver calls of a trace on a solver: the constraints the
    solver holds at each [checkSat], and the solver at the end. *)
Fixpoint seen_by_checks {T : Type} (trace : list (Event T)) (s : Solver T)
  : list (list T) * Solver T :=
  match trace with
  | [] => ([], s)
  | Cout _ :: rest => seen_by_checks rest s
  | CallAssertFormula formula :: rest => seen_by_checks rest (assertFormula formula s)
  | CallCheckSat :: rest =>
      let (seen, s') := seen_by_checks rest (snd (checkSat s)) in
      (constraints s :: seen, s')
  | CallResetAssertions :: rest => seen_by_checks rest (resetAssertions s)
  end.

(* ================================================================= *)
(** ** Lines of the report *)

(** Number of newline characters of a string. *)
Fixpoint count_newlines (s : string) : nat :=
  match s with
  | EmptyString => O
  | String c rest =>
      ((if Ascii.eqb c "010"%char then 1 else 0) + count_newlines rest)%nat
  end.

(* ================================================================= *)
(** ** How many values of the engine take a branch *)

(** The tests of [generateArithmetic] read one value of the engine each.
    Their frequencies are counted over the values the engine can return:
    the number of [r] with [0 <= r < n] on which [p] holds. *)
Fixpoint count_below (p : Z -> bool) (n : nat) : Z :=
  match n with
  | O => 0
  | S n' => count_below p n' + (if p (Z.of_nat n') then 1 else 0)
  end.

(** The sum of [c u] over [0 <= u < k]. *)
Fixpoint sum_below (c : Z -> Z) (k : nat) : Z :=
  match k with
  | O => 0
  | S k' => sum_below c k' + c (Z.of_nat k')
  end.

(** [std::mt19937::operator()] returns the values of 32 bits. *)
Definition engine_values : nat := Z.to_nat (2 ^ 32).

(** The coin of [generateArithmetic], [rng() % 3 == 0], on the value [r]
    of the engine. *)
Definition arithmetic_coin (r : Z) : bool := r mod 3 =? 0.

Definition Kind_eqb (a b : Kind) : bool :=
  match a, b with
  | ADD, ADD | SUB, SUB | MULT, MULT | GT, GT | LT, LT | EQUAL, EQUAL
  | AND, AND | OR, OR | XOR, XOR => true
  | _, _ => false
  end.

(** On the value [r] of the engine, [switch (rng() % 3)] of
    [generateArithmetic] takes the operator [kind]. *)
Definition chooses (kind : Kind) (r : Z) : bool :=
  Kind_eqb (pick_kind ADD SUB MULT ADD r) kind.

(** The distribution keeps the value [r] of the engine: [_S_nd] does not
    enter its loop, or leaves it, on the product [r * range]. *)
Definition keeps (range r : Z) : bool :=
  negb ((r * range mod 2 ^ 32 <? range)
        && (r * range mod 2 ^ 32
            <? uniform_int_distribution.threshold range)).

(** What [dist(min, max)] returns for a value [r] that it keeps. *)
Definition kept_value (min max r : Z) : Z :=
  Z.shiftr (r * (max - min + 1)) 32 + min.

(* ================================================================= *)
(** * Properties *)

(** ** The mersenne twister against the values the standard gives *)

(** The first values of an engine seeded with the default seed 5489. *)
Example mt19937_known_answers :
  let s0 := mt19937.seed 5489 in
  let (a, s1) := mt19937.call s0 in
  let (b, s2) := mt19937.call s1 in
  let (c, s3) := mt19937.call s2 in
  (a, b, c) = (3499211612, 581869302, 3890346734).
Proof. vm_compute. reflexivity. Qed.

Lemma land_word_mask_range (y : Z) : 0 <= Z.land y mt19937.word_mask < 2 ^ 32.
Proof.
  change mt19937.word_mask with (Z.ones 32).
  rewrite Z.land_ones by lia.
  apply Z.mod_pos_bound. lia.
Qed.

Lemma mt19937_call_range (s : mt19937.state) :
  0 <= fst (mt19937.call s) < 2 ^ 32.
Proof.
  unfold mt19937.call. cbv zeta.
  match goal with
  | |- context [if ?c then ?a else ?b] => generalize (if c then a else b)
  end.
  intros s'. unfold fst, mt19937.temper. cbv zeta.
  match goal with
  | |- 0 <= Z.land ?y _ < _ => exact (land_word_mask_range y)
  end.
Qed.

Section DistributionRange.

Context {E : Type} (g : E -> Z * E).
Hypothesis g_range : forall e, 0 <= fst (g e) < 2 ^ 32.

(** Every product the rejection loop holds is a value of the generator
    times the range. *)
Lemma redraw_product (fuel : nat) (range thr product : Z) (e : E) :
  (exists r, 0 <= r < 2 ^ 32 /\ product = r * range) ->
  exists r, 0 <= r < 2 ^ 32 /\
            fst (uniform_int_distribution.redraw g fuel range thr product e)
            = r * range.
Proof.
  revert product e. induction fuel as [|fuel IH]; intros product e Hprod.
  - exact Hprod.
  - cbn [uniform_int_distribution.redraw].
    destruct (product mod 2 ^ 32 <? thr); [|exact Hprod].
    pose proof (g_range e) as Hr.
    destruct (g e) as [r e']. cbn [fst] in Hr.
    apply IH. exists r. split; [exact Hr|reflexivity].
Qed.

Lemma S_nd_range (range : Z) (e : E) :
  0 < range -> 0 <= fst (uniform_int_distribution.S_nd g range e) < range.
Proof.
  intros Hrange. unfold uniform_int_distribution.S_nd.
  pose proof (g_range e) as Hr.
  destruct (g e) as [r e1]. cbn [fst] in Hr. cbv zeta.
  assert (Hform : exists r', 0 <= r' < 2 ^ 32 /\
            fst (if r * range mod 2 ^ 32 <? range
                 then uniform_int_distribution.redraw g
                        uniform_int_distribution.redraw_limit range
                        (uniform_int_distribution.threshold range)
                        (r * range) e1
                 else (r * range, e1)) = r' * range).
  { destruct (r * range mod 2 ^ 32 <? range).
    - apply redraw_product. exists r. split; [exact Hr|reflexivity].
    - exists r. split; [exact Hr|reflexivity]. }
  destruct (if r * range mod 2 ^ 32 <? range
            then uniform_int_distribution.redraw g
                   uniform_int_distribution.redraw_limit range
                   (uniform_int_distribution.threshold range) (r * range) e1
            else (r * range, e1)) as [product e2].
  cbn [fst] in *. destruct Hform as (r' & Hr' & ->).
  rewrite Z.shiftr_div_pow2 by lia.
  split.
  - apply Z.div_pos; [|lia]. apply Z.mul_nonneg_nonneg; lia.
  - apply Z.div_lt_upper_bound; [lia|].
    apply Z.mul_lt_mono_pos_r; lia.
Qed.

(** The distribution keeps to its range. *)
Lemma uniform_int_distribution_range (min max : Z) (e : E) :
  min <= max ->
  min <= fst (uniform_int_distribution.call g min max e) <= max.
Proof.
  intros Hle. unfold uniform_int_distribution.call. cbv zeta.
  destruct (Z.ltb_spec (max - min) (2 ^ 32 - 1)) as [Hsmall|Hfull].
  - pose proof (S_nd_range (max - min + 1) e) as Hnd.
    destruct (uniform_int_distribution.S_nd g (max - min + 1) e) as [ret e'].
    cbn [fst] in *. lia.
  - pose proof (g_range e) as Hr.
    destruct (g e) as [r e']. cbn [fst] in *. lia.
Qed.

End DistributionRange.

Lemma mt19937_dist_range (min max : Z) (s : mt19937.state) :
  min <= max -> min <= fst (mt19937.dist min max s) <= max.
Proof.
  exact (uniform_int_distribution_range mt19937.call mt19937_call_range
           min max s).
Qed.

#[export] Instance StdMt19937_laws : RandomSourceLaws mt19937.state.
Proof.
  split.
  - exact mt19937_call_range.
  - exact mt19937_dist_range.
Qed.

(** The check the standard prescribes: the 10000th call of a
    default-constructed engine (seed 5489) yields 4123659995. *)
Example mt19937_10000th_call :
  mt19937.nth_call (Z.to_nat 9999) (mt19937.seed 5489) = 4123659995.
Proof. vm_compute. reflexivity. Qed.

(** The distribution against the C++ library: the first draws of
    [std::uniform_int_distribution<int>(-100, 100)] on an engine seeded with
    5489, and a draw over the whole range of [int] on one seeded with 7. *)
Example uniform_int_distribution_known_answers :
  let s0 := mt19937.seed 5489 in
  let (a, s1) := mt19937.dist (-100) 100 s0 in
  let (b, s2) := mt19937.dist (-100) 100 s1 in
  let (c, s3) := mt19937.dist (-100) 100 s2 in
  (a, b, c) = (63, -73, 82) /\
  fst (mt19937.dist (-2147483648) 2147483647 (mt19937.seed 7)) = -1819742033.
Proof. vm_compute. split; reflexivity. Qed.

(** ** Printing *)

Example to_string_examples :
  to_string 0 = "0"%string /\ to_string (-100) = "-100"%string
  /\ to_string 42 = "42"%string.
Proof. repeat split; reflexivity. Qed.

Example mock_mkTerm_example :
  value (Mock_mkTerm GT [Mock_mkTerm ADD [mkInteger 1; mkInteger (-2)]; mkInteger 3])
  = "(> (+ 1 -2) 3)"%string.
Proof. reflexivity. Qed.

(** ** The generator monad *)

Lemma bind_Some {G A B : Type} (c : Gen G A) (k : A -> Gen G B) (g g' : G) (b : B) :
  bind c k g = Some (b, g') <->
  exists a g1, c g = Some (a, g1) /\ k a g1 = Some (b, g').
Proof.
  unfold bind. split.
  - destruct (c g) as [[a g1]|]; [|discriminate].
    intros Hk. exists a, g1. split; [reflexivity|exact Hk].
  - intros (a & g1 & Hc & Hk). rewrite Hc. exact Hk.
Qed.

(** Split a run of [bind] found in hypothesis [H]. *)
Ltac bind_inv H a g E :=
  apply bind_Some in H; destruct H as (a & g & E & H); cbv beta zeta in H.

(** The [default] branch of the switch is never taken. *)
Lemma pick_kind_cases (k0 k1 k2 kd : Kind) (r : Z) :
  pick_kind k0 k1 k2 kd r = k0 \/ pick_kind k0 k1 k2 kd r = k1 \/
  pick_kind k0 k1 k2 kd r = k2.
Proof.
  unfold pick_kind.
  pose proof (Z.mod_pos_bound r 3 ltac:(lia)) as Hr.
  destruct (r mod 3) as [|p|p]; auto; [|lia].
  destruct p as [p|p|]; auto; destruct p; auto; lia.
Qed.

(** The three residues select the three kinds, one each. *)
Lemma pick_kind_residues (k0 k1 k2 kd : Kind) (q : Z) :
  pick_kind k0 k1 k2 kd (3 * q) = k0 /\
  pick_kind k0 k1 k2 kd (3 * q + 1) = k1 /\
  pick_kind k0 k1 k2 kd (3 * q + 2) = k2.
Proof.
  unfold pick_kind.
  replace ((3 * q) mod 3) with 0
    by (symmetry; rewrite Z.mul_comm; apply Z.mod_mul; lia).
  replace ((3 * q + 1) mod 3) with 1
    by (symmetry; rewrite Z.add_comm, Z.mul_comm, Z.mod_add by lia; reflexivity).
  replace ((3 * q + 2) mod 3) with 2
    by (symmetry; rewrite Z.add_comm, Z.mul_comm, Z.mod_add by lia; reflexivity).
  auto.
Qed.

(** The coin [r % 3 == 0] is true on one residue in three. *)
Lemma coin_residues (q : Z) :
  ((3 * q) mod 3 =? 0) = true /\
  ((3 * q + 1) mod 3 =? 0) = false /\
  ((3 * q + 2) mod 3 =? 0) = false.
Proof.
  replace ((3 * q) mod 3) with 0
    by (symmetry; rewrite Z.mul_comm; apply Z.mod_mul; lia).
  replace ((3 * q + 1) mod 3) with 1
    by (symmetry; rewrite Z.add_comm, Z.mul_comm, Z.mod_add by lia; reflexivity).
  replace ((3 * q + 2) mod 3) with 2
    by (symmetry; rewrite Z.add_comm, Z.mul_comm, Z.mod_add by lia; reflexivity).
  auto.
Qed.

Section GeneratorFacts.

Context {G T : Type} `{RandomSource G} `{TermAPI T}.

(** The stopping test always answers, and draws only when
    [0 < depth <= cap]. *)
Lemma stop_here_cases (cap m depth : Z) (g : G) :
  (cap < depth /\ stop_here cap m depth g = Some (true, g)) \/
  (0 < depth <= cap /\
   stop_here cap m depth g
   = Some (fst (rng_call g) mod m =? 0, snd (rng_call g))) \/
  (depth <= cap /\ depth <= 0 /\ stop_here cap m depth g = Some (false, g)).
Proof.
  unfold stop_here.
  destruct (Z.gtb_spec depth cap) as [Hgt|Hle].
  - left. split; [lia|reflexivity].
  - destruct (Z.gtb_spec depth 0) as [Hpos|Hneg].
    + right; left. split; [lia|].
      unfold bind, draw, ret. destruct (rng_call g); reflexivity.
    + right; right. repeat split; try lia.
Qed.

Lemma generateInteger_eq (min max : Z) (g : G) :
  generateInteger min max g
  = Some (mkInteger (fst (dist_call min max g)), snd (dist_call min max g)).
Proof.
  unfold generateInteger, bind, draw_between, ret.
  destruct (dist_call min max g); reflexivity.
Qed.

Lemma generateBoolean_eq (g : G) :
  generateBoolean g
  = Some (mkBoolean (fst (rng_call g) mod 2 =? 1), snd (rng_call g)).
Proof.
  unfold generateBoolean, bind, draw, ret.
  destruct (rng_call g); reflexivity.
Qed.

Lemma draw_eq (g : G) : draw g = Some (fst (rng_call g), snd (rng_call g)).
Proof. unfold draw. destruct (rng_call g); reflexivity. Qed.

(** The last two steps of every operation branch: draw the kind, build
    the term. *)
Lemma build_eq (k0 k1 k2 kd : Kind) (children : list T) (g : G) :
  bind draw (fun r => ret (mkTerm (pick_kind k0 k1 k2 kd r) children)) g
  = Some (mkTerm (pick_kind k0 k1 k2 kd (fst (rng_call g))) children,
          snd (rng_call g)).
Proof. unfold bind. rewrite draw_eq. reflexivity. Qed.

(** The source's generators are the capped ones at 2. *)
Lemma generateArithmetic_capped (fuel : nat) :
  forall depth g,
    generateArithmetic fuel depth g = generateArithmeticWith 2 fuel depth g.
Proof.
  induction fuel as [|fuel IH]; intros depth g; [reflexivity|].
  cbn [generateArithmetic generateArithmeticWith]. unfold bind.
  destruct (stop_here 2 3 depth g) as [[[|] g1]|]; try reflexivity.
  rewrite IH. destruct (generateArithmeticWith 2 fuel (depth + 1) g1) as [[l g2]|];
    [|reflexivity].
  rewrite IH. reflexivity.
Qed.

Lemma generateBooleanExpr_capped (fuel : nat) :
  forall depth g,
    generateBooleanExpr fuel depth g = generateBooleanExprWith 2 fuel depth g.
Proof.
  induction fuel as [|fuel IH]; intros depth g; [reflexivity|].
  cbn [generateBooleanExpr generateBooleanExprWith]. unfold bind.
  destruct (stop_here 1 2 depth g) as [[[|] g1]|]; try reflexivity.
  - destruct (draw g1) as [[r g2]|]; [|reflexivity].
    destruct (r mod 2 =? 0); [reflexivity|].
    rewrite generateArithmetic_capped.
    destruct (generateArithmeticWith 2 fuel 0 g2) as [[l g3]|]; [|reflexivity].
    rewrite generateArithmetic_capped. reflexivity.
  - rewrite IH.
    destruct (generateBooleanExprWith 2 fuel (depth + 1) g1) as [[l g2]|];
      [|reflexivity].
    rewrite IH. reflexivity.
Qed.

End GeneratorFacts.

(** ** Termination *)

Section Termination.

Context {G T : Type} `{RandomSource G} `{TermAPI T}.

(** Run the next generator call of the goal with [L], a proof that the
    call at that depth and state returns. *)
Ltac run_call L :=
  match goal with
  | |- context [generateArithmeticWith _ _ ?d ?g] =>
      let t := fresh "t" in
      let g' := fresh "g" in
      let E := fresh "E" in
      destruct (L d g) as (t & g' & E); [lia | rewrite E]
  | |- context [generateBooleanExprWith _ _ ?d ?g] =>
      let t := fresh "t" in
      let g' := fresh "g" in
      let E := fresh "E" in
      destruct (L d g) as (t & g' & E); [lia | rewrite E]
  end.

Lemma generateArithmeticWith_returns (maxDepth : Z) (fuel : nat) :
  forall depth (g : G),
    (arithmetic_fuel maxDepth depth <= fuel)%nat ->
    exists (t : T) g', generateArithmeticWith maxDepth fuel depth g = Some (t, g').
Proof.
  unfold arithmetic_fuel.
  induction fuel as [|fuel IH]; intros depth g Hfuel; [lia|].
  cbn [generateArithmeticWith]. unfold bind.
  destruct (stop_here_cases maxDepth 3 depth g)
    as [[Hd Hs]|[[Hd Hs]|(Hd & Hd' & Hs)]]; rewrite Hs;
    [ | destruct (fst (rng_call g) mod 3 =? 0) | ].
  (* a literal *)
  1, 2: rewrite generateInteger_eq; eauto.
  (* an operation *)
  all: do 2 run_call IH; rewrite draw_eq; unfold ret; eauto.
Qed.

Lemma generateBooleanExprWith_returns (maxDepth : Z) (fuel : nat) :
  forall depth (g : G),
    (boolean_fuel maxDepth depth <= fuel)%nat ->
    exists (t : T) g', generateBooleanExprWith maxDepth fuel depth g = Some (t, g').
Proof.
  unfold boolean_fuel.
  induction fuel as [|fuel IH]; intros depth g Hfuel; [lia|].
  cbn [generateBooleanExprWith]. unfold bind.
  destruct (stop_here_cases 1 2 depth g)
    as [[Hd Hs]|[[Hd Hs]|(Hd & Hd' & Hs)]]; rewrite Hs;
    [ | destruct (fst (rng_call g) mod 2 =? 0) | ].
  (* a literal or a comparison *)
  1, 2: rewrite draw_eq;
    match goal with |- context [if ?c then _ else _] => destruct c end;
    [ rewrite generateBoolean_eq; eauto
    | do 2 run_call (generateArithmeticWith_returns maxDepth fuel);
      rewrite draw_eq; unfold ret; eauto ].
  (* a connective *)
  all: do 2 run_call IH; rewrite draw_eq; unfold ret; eauto.
Qed.

(** More fuel does not change a result. *)
Lemma generateArithmeticWith_more_fuel (maxDepth : Z) (fuel : nat) :
  forall fuel' depth (g : G) (r : T * G),
    (fuel <= fuel')%nat ->
    generateArithmeticWith maxDepth fuel depth g = Some r ->
    generateArithmeticWith maxDepth fuel' depth g = Some r.
Proof.
  induction fuel as [|fuel IH]; intros fuel' depth g r Hle Hrun; [discriminate|].
  destruct fuel' as [|fuel']; [lia|].
  cbn [generateArithmeticWith] in *. unfold bind in *.
  destruct (stop_here maxDepth 3 depth g) as [[[|] g1]|]; try assumption.
  destruct (generateArithmeticWith maxDepth fuel (depth + 1) g1)
    as [[l g2]|] eqn:El; [|discriminate].
  rewrite (IH fuel' _ _ _ ltac:(lia) El).
  destruct (generateArithmeticWith maxDepth fuel (depth + 1) g2)
    as [[r' g3]|] eqn:Er; [|discriminate].
  rewrite (IH fuel' _ _ _ ltac:(lia) Er). assumption.
Qed.

Lemma generateBooleanExprWith_more_fuel (maxDepth : Z) (fuel : nat) :
  forall fuel' depth (g : G) (r : T * G),
    (fuel <= fuel')%nat ->
    generateBooleanExprWith maxDepth fuel depth g = Some r ->
    generateBooleanExprWith maxDepth fuel' depth g = Some r.
Proof.
  induction fuel as [|fuel IH]; intros fuel' depth g r Hle Hrun; [discriminate|].
  destruct fuel' as [|fuel']; [lia|].
  cbn [generateBooleanExprWith] in *. unfold bind in *.
  destruct (stop_here 1 2 depth g) as [[[|] g1]|]; try assumption.
  - destruct (draw g1) as [[c g2]|]; [|discriminate].
    destruct (c mod 2 =? 0); [assumption|].
    destruct (generateArithmeticWith maxDepth fuel 0 g2)
      as [[l g3]|] eqn:El; [|discriminate].
    rewrite (generateArithmeticWith_more_fuel maxDepth fuel fuel' _ _ _ ltac:(lia) El).
    destruct (generateArithmeticWith maxDepth fuel 0 g3)
      as [[r' g4]|] eqn:Er; [|discriminate].
    rewrite (generateArithmeticWith_more_fuel maxDepth fuel fuel' _ _ _ ltac:(lia) Er).
    assumption.
  - destruct (generateBooleanExprWith maxDepth fuel (depth + 1) g1)
      as [[l g2]|] eqn:El; [|discriminate].
    rewrite (IH fuel' _ _ _ ltac:(lia) El).
    destruct (generateBooleanExprWith maxDepth fuel (depth + 1) g2)
      as [[r' g3]|] eqn:Er; [|discriminate].
    rewrite (IH fuel' _ _ _ ltac:(lia) Er). assumption.
Qed.

End Termination.

(** C3.  [generateArithmetic] and [generateBooleanExpr] return: for every
    depth argument, every cap of the arithmetic recursion (so every
    [maxDepth >= 0], and the source's 2) and every state of every random
    source, hence every sequence of draws, a run with at least
    [arithmetic_fuel] (resp. [boolean_fuel]) units of fuel yields a term.
    The recursion is bounded by the depth caps alone: no draw can prolong
    it.  The fuel counts nested calls, so the bound is also the greatest
    depth of the call stack. *)
Theorem generators_return {G T : Type} `{RandomSource G} `{TermAPI T}
    (maxDepth depth : Z) (fuel : nat) (g : G) :
  ((arithmetic_fuel maxDepth depth <= fuel)%nat ->
   exists (t : T) g',
     generateArithmeticWith maxDepth fuel depth g = Some (t, g')) /\
  ((boolean_fuel maxDepth depth <= fuel)%nat ->
   exists (t : T) g',
     generateBooleanExprWith maxDepth fuel depth g = Some (t, g')) /\
  ((arithmetic_fuel 2 depth <= fuel)%nat ->
   exists (t : T) g', generateArithmetic fuel depth g = Some (t, g')) /\
  ((boolean_fuel 2 depth <= fuel)%nat ->
   exists (t : T) g', generateBooleanExpr fuel depth g = Some (t, g')).
Proof.
  repeat split; intros Hfuel.
  - now apply generateArithmeticWith_returns.
  - now apply generateBooleanExprWith_returns.
  - rewrite generateArithmetic_capped. now apply generateArithmeticWith_returns.
  - rewrite generateBooleanExpr_capped. now apply generateBooleanExprWith_returns.
Qed.

(** At depth 0 the source's generators need 4 and 7 units of fuel; the run
    below is the first constraint of a fuzzer seeded with 42. *)
Lemma generators_return_witness :
  (arithmetic_fuel 2 0 <= 4)%nat /\ (boolean_fuel 2 0 <= 7)%nat /\
  (exists (t : Term) g',
      generateArithmetic 4 0 (mt19937.seed 42) = Some (t, g')) /\
  (exists (t : Term) g',
      generateBooleanExpr 7 0 (mt19937.seed 42) = Some (t, g')).
Proof.
  split; [vm_compute; lia|]. split; [vm_compute; lia|].
  pose proof (generators_return (T := Term) 2 0 4 (mt19937.seed 42)) as H4.
  pose proof (generators_return (T := Term) 2 0 7 (mt19937.seed 42)) as H7.
  split.
  - apply H4. vm_compute. lia.
  - apply H7. vm_compute. lia.
Defined.


(** ** One call of [generateArithmetic] *)

(** *** Counting values of the engine *)

Lemma count_below_ext (p q : Z -> bool) (n : nat) :
  (forall r, 0 <= r < Z.of_nat n -> p r = q r) ->
  count_below p n = count_below q n.
Proof.
  induction n as [|n IH]; intros Hpq; [reflexivity|].
  cbn [count_below].
  rewrite IH, (Hpq (Z.of_nat n)) by (intros; try apply Hpq; lia).
  reflexivity.
Qed.

Lemma count_below_negb (p : Z -> bool) (n : nat) :
  count_below p n + count_below (fun r => negb (p r)) n = Z.of_nat n.
Proof.
  induction n as [|n IH]; [reflexivity|].
  cbn [count_below]. rewrite Nat2Z.inj_succ.
  destruct (p (Z.of_nat n)); cbn [negb]; lia.
Qed.

Lemma count_below_between (lo hi : Z) (n : nat) :
  0 <= lo <= hi ->
  count_below (fun r => (lo <=? r) && (r <? hi)) n
  = Z.max 0 (Z.min hi (Z.of_nat n) - lo).
Proof.
  intros Hlo. induction n as [|n IH]; [cbn [count_below]; lia|].
  cbn [count_below]. rewrite IH, Nat2Z.inj_succ.
  destruct (Z.leb_spec lo (Z.of_nat n)), (Z.ltb_spec (Z.of_nat n) hi);
    cbn [andb]; lia.
Qed.

(** Of the values below [n], [(n + 2 - k) / 3] have the residue [k]. *)
Lemma count_below_residue (k : Z) (n : nat) :
  0 <= k < 3 ->
  count_below (fun r => r mod 3 =? k) n = (Z.of_nat n + 2 - k) / 3.
Proof.
  intros Hk. induction n as [|n IH].
  - cbn [count_below Z.of_nat]. symmetry. apply Z.div_small. lia.
  - cbn [count_below]. rewrite IH, Nat2Z.inj_succ.
    destruct (Z.eqb_spec (Z.of_nat n mod 3) k) as [E|E];
      revert E; Z.div_mod_to_equations; lia.
Qed.

Lemma sum_below_const (c : Z -> Z) (q : Z) (k : nat) :
  (forall u, 0 <= u < Z.of_nat k -> c u = q) -> sum_below c k = Z.of_nat k * q.
Proof.
  induction k as [|k IH]; intros Hc; [reflexivity|].
  cbn [sum_below].
  rewrite IH, Hc, Nat2Z.inj_succ by (intros; try apply Hc; lia).
  lia.
Qed.

Lemma sum_below_indicator (x : Z) (k : nat) :
  sum_below (fun u => if x =? u then 1 else 0) k
  = if (0 <=? x) && (x <? Z.of_nat k) then 1 else 0.
Proof.
  induction k as [|k IH].
  - cbn [sum_below Z.of_nat].
    destruct (Z.leb_spec 0 x), (Z.ltb_spec x 0); cbn; lia.
  - cbn [sum_below]. rewrite IH, Nat2Z.inj_succ.
    destruct (Z.leb_spec 0 x), (Z.ltb_spec x (Z.of_nat k)),
      (Z.ltb_spec x (Z.succ (Z.of_nat k))), (Z.eqb_spec x (Z.of_nat k));
      cbn [andb]; lia.
Qed.

Lemma sum_below_add (c d : Z -> Z) (k : nat) :
  sum_below (fun u => c u + d u) k = sum_below c k + sum_below d k.
Proof.
  induction k as [|k IH]; [reflexivity|]. cbn [sum_below]. rewrite IH. lia.
Qed.

(** Counting by the value of [f]. *)
Lemma count_below_by_value (p : Z -> bool) (f : Z -> Z) (k n : nat) :
  (forall r, 0 <= r < Z.of_nat n -> 0 <= f r < Z.of_nat k) ->
  count_below p n
  = sum_below (fun u => count_below (fun r => p r && (f r =? u)) n) k.
Proof.
  induction n as [|n IH]; intros Hf.
  - cbn [count_below]. symmetry.
    rewrite (sum_below_const _ 0); [lia|reflexivity].
  - cbn [count_below].
    rewrite sum_below_add, <- IH by (intros; apply Hf; lia).
    f_equal.
    destruct (p (Z.of_nat n)); cbn [andb].
    + rewrite sum_below_indicator.
      pose proof (Hf (Z.of_nat n) ltac:(lia)) as Hn.
      destruct (Z.leb_spec 0 (f (Z.of_nat n))),
        (Z.ltb_spec (f (Z.of_nat n)) (Z.of_nat k)); cbn [andb]; lia.
    + rewrite (sum_below_const _ 0); [lia|reflexivity].
Qed.

Lemma engine_values_eq : Z.of_nat engine_values = 4294967296.
Proof. unfold engine_values. rewrite Z2Nat.id; [reflexivity|]. lia. Qed.

(** *** The coin and the operator *)

Lemma arithmetic_coin_count :
  count_below arithmetic_coin engine_values = 1431655766.
Proof.
  unfold arithmetic_coin.
  rewrite (count_below_residue 0) by lia. rewrite engine_values_eq.
  reflexivity.
Qed.

Lemma chooses_residue (r : Z) :
  chooses ADD r = (r mod 3 =? 0) /\
  chooses SUB r = (r mod 3 =? 1) /\
  chooses MULT r = (r mod 3 =? 2).
Proof.
  unfold chooses, pick_kind.
  pose proof (Z.mod_pos_bound r 3 ltac:(lia)) as Hr.
  destruct (r mod 3) as [|p|p]; [auto| |lia].
  destruct p as [p|p|];
    [destruct p; try lia; auto|destruct p; try lia; auto|auto].
Qed.

Lemma chooses_count :
  count_below (chooses ADD) engine_values = 1431655766 /\
  count_below (chooses SUB) engine_values = 1431655765 /\
  count_below (chooses MULT) engine_values = 1431655765.
Proof.
  split; [|split].
  - rewrite (count_below_ext _ (fun r => r mod 3 =? 0))
      by (intros r _; apply chooses_residue).
    rewrite (count_below_residue 0) by lia. rewrite engine_values_eq.
    reflexivity.
  - rewrite (count_below_ext _ (fun r => r mod 3 =? 1))
      by (intros r _; apply chooses_residue).
    rewrite (count_below_residue 1) by lia. rewrite engine_values_eq.
    reflexivity.
  - rewrite (count_below_ext _ (fun r => r mod 3 =? 2))
      by (intros r _; apply chooses_residue).
    rewrite (count_below_residue 2) by lia. rewrite engine_values_eq.
    reflexivity.
Qed.

(** *** The literal *)

(** For the range of 201 values, [-range % range] is 100. *)
Lemma threshold_201 : uniform_int_distribution.threshold 201 = 100.
Proof. reflexivity. Qed.

Lemma keeps_201 (r : Z) : keeps 201 r = negb (r * 201 mod 2 ^ 32 <? 100).
Proof.
  unfold keeps. rewrite threshold_201. f_equal.
  destruct (Z.ltb_spec (r * 201 mod 2 ^ 32) 201),
    (Z.ltb_spec (r * 201 mod 2 ^ 32) 100); cbn [andb]; lia.
Qed.

(** The values of the engine that are kept and yield [v] are those of an
    interval. *)
Lemma kept_interval (v r : Z) :
  -100 <= v <= 100 -> 0 <= r < 4294967296 ->
  keeps 201 r && (kept_value (-100) 100 r =? v)
  = (((v + 100) * 4294967296 + 300) / 201 <=? r)
    && (r <? ((v + 101) * 4294967296 + 200) / 201).
Proof.
  intros Hv Hr. unfold keeps, kept_value.
  rewrite threshold_201.
  change (100 - -100 + 1) with 201. change (2 ^ 32) with 4294967296.
  rewrite Z.shiftr_div_pow2 by lia. change (2 ^ 32) with 4294967296.
  apply Bool.eq_true_iff_eq.
  rewrite !andb_true_iff, negb_true_iff, andb_false_iff, !Z.ltb_ge, Z.eqb_eq,
    Z.leb_le, Z.ltb_lt.
  Z.div_mod_to_equations. lia.
Qed.

Lemma kept_count (v : Z) :
  -100 <= v <= 100 ->
  count_below (fun r => keeps 201 r && (kept_value (-100) 100 r =? v))
    engine_values = 21367996.
Proof.
  intros Hv.
  rewrite (count_below_ext _
             (fun r => (((v + 100) * 4294967296 + 300) / 201 <=? r)
                       && (r <? ((v + 101) * 4294967296 + 200) / 201)))
    by (intros r Hr; rewrite engine_values_eq in Hr; now apply kept_interval).
  rewrite count_below_between, engine_values_eq
    by (Z.div_mod_to_equations; lia).
  Z.div_mod_to_equations. lia.
Qed.

Lemma kept_value_range (r : Z) :
  0 <= r < 4294967296 -> -100 <= kept_value (-100) 100 r <= 100.
Proof.
  intros Hr. unfold kept_value. change (100 - -100 + 1) with 201.
  rewrite Z.shiftr_div_pow2 by lia. change (2 ^ 32) with 4294967296.
  Z.div_mod_to_equations. lia.
Qed.

Lemma keeps_count :
  count_below (keeps 201) engine_values = 4294967196 /\
  count_below (fun r => negb (keeps 201 r)) engine_values = 100.
Proof.
  assert (Hkept : count_below (keeps 201) engine_values = 4294967196).
  { rewrite (count_below_by_value _ (fun r => kept_value (-100) 100 r + 100)
               201).
    - rewrite (sum_below_const _ 21367996); [reflexivity|].
      intros u Hu.
      rewrite (count_below_ext _
                 (fun r => keeps 201 r && (kept_value (-100) 100 r =? u - 100))).
      + apply kept_count. lia.
      + intros r _. f_equal.
        destruct (Z.eqb_spec (kept_value (-100) 100 r + 100) u),
          (Z.eqb_spec (kept_value (-100) 100 r) (u - 100)); lia.
    - intros r Hr. rewrite engine_values_eq in Hr.
      pose proof (kept_value_range r Hr). lia. }
  split; [exact Hkept|].
  pose proof (count_below_negb (keeps 201) engine_values) as Hsum.
  rewrite engine_values_eq in Hsum. lia.
Qed.

Section FirstKept.

Context {E : Type} (g : E -> Z * E).

(** The rejection loop stops at the first value the distribution keeps. *)
Lemma redraw_first_kept (k fuel : nat) (product : Z) (e : E) :
  (k < fuel)%nat ->
  (product mod 2 ^ 32 <? 100) = true ->
  (forall i, (i < k)%nat ->
             keeps 201 (uniform_int_distribution.nth_value g i e) = false) ->
  keeps 201 (uniform_int_distribution.nth_value g k e) = true ->
  uniform_int_distribution.redraw g fuel 201 100 product e
  = (uniform_int_distribution.nth_value g k e * 201,
     uniform_int_distribution.after g (S k) e).
Proof.
  revert fuel product e.
  induction k as [|k IH]; intros fuel product e Hfuel Hlow Hskip Hkeep;
    (destruct fuel as [|fuel]; [lia|]);
    cbn [uniform_int_distribution.redraw]; rewrite Hlow;
    cbn [uniform_int_distribution.nth_value uniform_int_distribution.after]
      in *.
  - rewrite keeps_201, negb_true_iff in Hkeep.
    destruct (g e) as [r e']. cbn [fst snd] in *.
    destruct fuel as [|fuel]; cbn [uniform_int_distribution.redraw];
      [|rewrite Hkeep]; reflexivity.
  - pose proof (Hskip O ltac:(lia)) as Hfirst.
    cbn [uniform_int_distribution.nth_value] in Hfirst.
    rewrite keeps_201, negb_false_iff in Hfirst.
    assert (Hrest : forall i, (i < k)%nat ->
              keeps 201 (uniform_int_distribution.nth_value g i (snd (g e)))
              = false).
    { intros i Hi. apply (Hskip (S i)). lia. }
    destruct (g e) as [r e']. cbn [fst snd] in *.
    apply IH; [lia|exact Hfirst|exact Hrest|exact Hkeep].
Qed.

(** [dist(-100, 100)] returns what the first value of the generator that
    the distribution keeps stands for. *)
Lemma call_first_kept (k : nat) (e : E) :
  (k <= uniform_int_distribution.redraw_limit)%nat ->
  (forall i, (i < k)%nat ->
             keeps 201 (uniform_int_distribution.nth_value g i e) = false) ->
  keeps 201 (uniform_int_distribution.nth_value g k e) = true ->
  uniform_int_distribution.call g (-100) 100 e
  = (kept_value (-100) 100 (uniform_int_distribution.nth_value g k e),
     uniform_int_distribution.after g (S k) e).
Proof.
  intros Hk Hskip Hkeep.
  unfold kept_value, uniform_int_distribution.call,
    uniform_int_distribution.S_nd.
  change (100 - -100 + 1) with 201.
  change (100 - -100 <? 2 ^ 32 - 1) with true.
  cbv iota zeta. rewrite threshold_201.
  destruct k as [|k];
    cbn [uniform_int_distribution.nth_value uniform_int_distribution.after]
      in *.
  - rewrite keeps_201, negb_true_iff in Hkeep.
    destruct (g e) as [r e1]. cbn [fst snd] in *.
    destruct (r * 201 mod 2 ^ 32 <? 201); [|reflexivity].
    unfold uniform_int_distribution.redraw_limit.
    cbn [uniform_int_distribution.redraw]. rewrite Hkeep.
    reflexivity.
  - pose proof (Hskip O ltac:(lia)) as Hfirst.
    cbn [uniform_int_distribution.nth_value] in Hfirst.
    rewrite keeps_201, negb_false_iff in Hfirst.
    assert (Hrest : forall i, (i < k)%nat ->
              keeps 201 (uniform_int_distribution.nth_value g i (snd (g e)))
              = false).
    { intros i Hi. apply (Hskip (S i)). lia. }
    destruct (g e) as [r e1]. cbn [fst snd] in *.
    assert (Hlt : (r * 201 mod 2 ^ 32 <? 201) = true).
    { apply Z.ltb_lt. apply Z.ltb_lt in Hfirst. lia. }
    rewrite Hlt.
    rewrite (redraw_first_kept k) by
      (try assumption; unfold uniform_int_distribution.redraw_limit in *; lia).
    reflexivity.
Qed.

End FirstKept.

(** *** The call *)

(** C5, as the spec has it, does not hold.  A coin of probability 1/3
    would be true on a third of the values [rng()] can return, and a
    uniform choice would give [ADD], [SUB] and [MULT] the same number of
    them.  The engine returns 2^32 values, which 3 does not divide: the
    coin [rng() % 3 == 0] is true on 1431655766 of them and
    [switch (rng() % 3)] takes [ADD] on one value more than [SUB]; no test
    of one value of the engine holds on exactly a third of them. *)
Lemma arithmetic_coin_is_not_one_in_three :
  3 * count_below arithmetic_coin engine_values <> Z.of_nat engine_values /\
  count_below (chooses ADD) engine_values
  <> count_below (chooses SUB) engine_values /\
  (forall p, 3 * count_below p engine_values <> Z.of_nat engine_values).
Proof.
  destruct chooses_count as (Hadd & Hsub & _).
  rewrite arithmetic_coin_count, Hadd, Hsub, engine_values_eq.
  split; [lia|]. split; [lia|]. intros p. lia.
Qed.

(** C5, as the code has it.  A call [generateArithmetic(depth)] with fuel
    for its subcalls.  Let [coin] be the test [rng() % 3 == 0] on the
    engine's next value and [g1] the engine after the stopping test, which
    draws only when [0 < depth <= 2].
    - When [depth > 2], or [depth > 0] and the coin is true, the call
      returns the integer literal that [uniform_int_distribution(-100, 100)]
      draws from [g1], passed on unchanged, a value of [[-100, 100]].
    - Otherwise it generates [left] and then [right] at [depth + 1], draws
      once more, and returns the operation [pick_kind ADD SUB MULT ADD r]
      over [[left; right]].
    - On trees, the result is a literal exactly in the first case.
    - The coin is true on the multiples of 3 and the three residues of [r]
      select [ADD], [SUB] and [MULT].  Of the 2^32 values the engine can
      return, the coin is true on 1431655766, and the switch takes [ADD] on
      1431655766, [SUB] on 1431655765 and [MULT] on 1431655765.
    - On [std::mt19937], the distribution keeps all but 100 of the values
      of the engine, and each value of [[-100, 100]] stands for 21367996 of
      those it keeps; [generateInteger] returns the literal of the first
      value of the engine that is kept. *)
Theorem generateArithmetic_call {G T : Type} `{RandomSource G}
    `{!RandomSourceLaws G} `{TermAPI T} (fuel : nat) (depth : Z) (g : G) :
  let coin := arithmetic_coin (fst (rng_call g)) in
  let terminal := (depth >? 2) || ((depth >? 0) && coin) in
  let g1 := if depth >? 2 then g
            else if depth >? 0 then snd (rng_call g) else g in
  (terminal = true ->
   generateArithmetic (S fuel) depth g
   = Some (mkInteger (fst (dist_call (-100) 100 g1)),
           snd (dist_call (-100) 100 g1))
   /\ -100 <= fst (dist_call (-100) 100 g1) <= 100) /\
  (terminal = false ->
   generateArithmetic (S fuel) depth g
   = (left <- generateArithmetic fuel (depth + 1) ;;
      right <- generateArithmetic fuel (depth + 1) ;;
      r <- draw ;;
      ret (mkTerm (pick_kind ADD SUB MULT ADD r) [left; right]))%gen g1) /\
  (forall (t : Ast) g',
      generateArithmetic (T := Ast) (S fuel) depth g = Some (t, g') ->
      (is_literal t = true <-> terminal = true)) /\
  (forall q, arithmetic_coin (3 * q) = true /\
             arithmetic_coin (3 * q + 1) = false /\
             arithmetic_coin (3 * q + 2) = false) /\
  (forall q, pick_kind ADD SUB MULT ADD (3 * q) = ADD /\
             pick_kind ADD SUB MULT ADD (3 * q + 1) = SUB /\
             pick_kind ADD SUB MULT ADD (3 * q + 2) = MULT) /\
  (Z.of_nat engine_values = 2 ^ 32 /\
   count_below arithmetic_coin engine_values = 1431655766 /\
   count_below (chooses ADD) engine_values = 1431655766 /\
   count_below (chooses SUB) engine_values = 1431655765 /\
   count_below (chooses MULT) engine_values = 1431655765) /\
  (forall v, -100 <= v <= 100 ->
     count_below (fun r => keeps 201 r && (kept_value (-100) 100 r =? v))
       engine_values = 21367996) /\
  count_below (fun r => negb (keeps 201 r)) engine_values = 100 /\
  (forall (s : mt19937.state) (k : nat),
      (k <= uniform_int_distribution.redraw_limit)%nat ->
      (forall i, (i < k)%nat ->
         keeps 201 (uniform_int_distribution.nth_value mt19937.call i s)
         = false) ->
      keeps 201 (uniform_int_distribution.nth_value mt19937.call k s) = true ->
      generateInteger (G := mt19937.state) (-100) 100 s
      = Some (mkInteger
                (kept_value (-100) 100
                   (uniform_int_distribution.nth_value mt19937.call k s)),
              uniform_int_distribution.after mt19937.call (S k) s)).
Proof.
  intros coin terminal g1.
  assert (Hstop : stop_here 2 3 depth g = Some (terminal, g1)).
  { subst coin terminal g1. unfold arithmetic_coin.
    destruct (stop_here_cases 2 3 depth g)
      as [[Hd Hs]|[[Hd Hs]|(Hd & Hd' & Hs)]]; rewrite Hs;
      destruct (Z.gtb_spec depth 2); destruct (Z.gtb_spec depth 0);
      try lia; reflexivity. }
  assert (Hstop' : forall T' (api : TermAPI T'),
             @generateArithmetic G T' _ api (S fuel) depth g
             = if terminal then generateInteger (-100) 100 g1
               else (left <- generateArithmetic fuel (depth + 1) ;;
                     right <- generateArithmetic fuel (depth + 1) ;;
                     r <- draw ;;
                     ret (mkTerm (pick_kind ADD SUB MULT ADD r) [left; right]))%gen g1).
  { intros T' api. cbn [generateArithmetic]. unfold bind at 1. rewrite Hstop.
    destruct terminal; reflexivity. }
  split; [|split; [|split; [|split; [|split; [|split; [|split; [|split]]]]]]].
  - intros Hterm. split; [|apply dist_call_range; lia].
    rewrite Hstop', Hterm, generateInteger_eq. reflexivity.
  - intros Hterm. rewrite Hstop', Hterm. reflexivity.
  - intros t g' Hrun. rewrite Hstop' in Hrun.
    destruct terminal.
    + rewrite generateInteger_eq in Hrun. injection Hrun as <- _.
      split; reflexivity.
    + unfold bind in Hrun.
      destruct (generateArithmetic fuel (depth + 1) g1) as [[l g2]|]; [|discriminate].
      destruct (generateArithmetic fuel (depth + 1) g2) as [[r g3]|]; [|discriminate].
      rewrite draw_eq in Hrun. injection Hrun as <- _.
      split; discriminate.
  - apply coin_residues.
  - apply pick_kind_residues.
  - split; [exact engine_values_eq|].
    split; [exact arithmetic_coin_count|exact chooses_count].
  - exact kept_count.
  - exact (proj2 keeps_count).
  - intros s k Hk Hskip Hkeep.
    rewrite generateInteger_eq. cbn [dist_call StdMt19937].
    unfold mt19937.dist.
    rewrite (call_first_kept mt19937.call k s Hk Hskip Hkeep). reflexivity.
Qed.

(** An engine seeded with 42: the literal at depth 3, the operation at
    depth 0, and the draw [-25], which the distribution keeps. *)
Lemma generateArithmetic_call_witness :
  (exists v g',
      generateArithmetic 1 3 (mt19937.seed 42)
      = Some (mkTermOfString (to_string v), g')
      /\ -100 <= v <= 100) /\
  (exists (t : Term) g',
      generateArithmetic 4 0 (mt19937.seed 42) = Some (t, g')) /\
  count_below (fun r => keeps 201 r && (kept_value (-100) 100 r =? -25))
    engine_values = 21367996 /\
  (exists g',
      generateInteger (-100) 100 (mt19937.seed 42)
      = Some (IntLiteral (-25), g')).
Proof.
  pose proof (generateArithmetic_call (T := Term) 0 3 (mt19937.seed 42)) as Hlit.
  pose proof (generateArithmetic_call (T := Term) 3 0 (mt19937.seed 42)) as Hop.
  pose proof (generateArithmetic_call (T := Ast) 0 3 (mt19937.seed 42)) as Hint.
  cbv zeta in Hlit, Hop, Hint.
  destruct Hlit as [Hlit _]. destruct Hop as [_ [Hop _]].
  destruct Hint as (_ & _ & _ & _ & _ & _ & Hcount & _ & Hkept).
  split; [|split; [|split]].
  - destruct Hlit as [E R]; [vm_compute; reflexivity|].
    eexists _, _. split; [exact E|exact R].
  - rewrite Hop by (vm_compute; reflexivity).
    vm_compute. eexists _, _. reflexivity.
  - apply Hcount. lia.
  - rewrite (Hkept (mt19937.seed 42) O);
      [|apply Nat.le_0_l|intros i Hi; lia|vm_compute; reflexivity].
    eexists. vm_compute. reflexivity.
Defined.

(** ** Runs that see the same draws build the same terms *)

Section Related.

Context {G1 G2 T1 T2 : Type}.
Context {src1 : RandomSource G1} {src2 : RandomSource G2}.
Context {api1 : TermAPI T1} {api2 : TermAPI T2}.
Variable RG : G1 -> G2 -> Prop.
Variable RT : T1 -> T2 -> Prop.
Hypothesis Hdraws : same_draws RG.
Hypothesis Hterms : same_terms RT.

Lemma bind_related {A1 A2 B1 B2 : Type} (RA : A1 -> A2 -> Prop) (RB : B1 -> B2 -> Prop)
    (c1 : Gen G1 A1) (c2 : Gen G2 A2) (k1 : A1 -> Gen G1 B1) (k2 : A2 -> Gen G2 B2)
    (g1 : G1) (g2 : G2) :
  related_runs RG RA (c1 g1) (c2 g2) ->
  (forall a1 a2 h1 h2, RA a1 a2 -> RG h1 h2 -> related_runs RG RB (k1 a1 h1) (k2 a2 h2)) ->
  related_runs RG RB (bind c1 k1 g1) (bind c2 k2 g2).
Proof.
  unfold bind, related_runs at 1. intros Hc Hk.
  destruct (c1 g1) as [[a1 h1]|], (c2 g2) as [[a2 h2]|]; try contradiction.
  - destruct Hc. now apply Hk.
  - exact I.
Qed.

Lemma draw_related (g1 : G1) (g2 : G2) :
  RG g1 g2 -> related_runs RG eq (draw g1) (draw g2).
Proof.
  intros Hg. rewrite !draw_eq. apply (Hdraws g1 g2 Hg).
Qed.

Lemma generateInteger_related (min max : Z) (g1 : G1) (g2 : G2) :
  RG g1 g2 ->
  related_runs RG RT (generateInteger min max g1) (generateInteger min max g2).
Proof.
  intros Hg. rewrite !generateInteger_eq.
  destruct (Hdraws g1 g2 Hg) as [_ Hd]. destruct (Hd min max) as [Hv Hs].
  cbn. rewrite Hv. split; [apply Hterms|exact Hs].
Qed.

Lemma generateBoolean_related (g1 : G1) (g2 : G2) :
  RG g1 g2 -> related_runs RG RT (generateBoolean g1) (generateBoolean g2).
Proof.
  intros Hg. rewrite !generateBoolean_eq.
  destruct (Hdraws g1 g2 Hg) as [[Hv Hs] _].
  cbn. rewrite Hv. split; [apply Hterms|exact Hs].
Qed.

Lemma stop_here_related (cap m depth : Z) (g1 : G1) (g2 : G2) :
  RG g1 g2 ->
  related_runs RG eq (stop_here cap m depth g1) (stop_here cap m depth g2).
Proof.
  intros Hg. unfold stop_here.
  destruct (depth >? cap); [cbn; auto|].
  destruct (depth >? 0); [|cbn; auto].
  apply bind_related with (RA := eq); [now apply draw_related|].
  intros a1 a2 h1 h2 <- Hh. cbn. auto.
Qed.

(** The last two steps of every operation branch: draw the kind, build
    the term. *)
Lemma build_related (k0 k1 k2 kd : Kind) (l1 r1 : T1) (l2 r2 : T2)
    (g1 : G1) (g2 : G2) :
  RT l1 l2 -> RT r1 r2 -> RG g1 g2 ->
  related_runs RG RT
    (bind draw (fun r => ret (mkTerm (pick_kind k0 k1 k2 kd r) [l1; r1])) g1)
    (bind draw (fun r => ret (mkTerm (pick_kind k0 k1 k2 kd r) [l2; r2])) g2).
Proof.
  intros Hl Hr Hg.
  apply bind_related with (RA := eq); [now apply draw_related|].
  intros a1 a2 h1 h2 <- Hh. cbn. split; [|exact Hh].
  apply Hterms. repeat constructor; assumption.
Qed.

Lemma generateArithmeticWith_related (maxDepth : Z) (fuel : nat) :
  forall depth g1 g2,
    RG g1 g2 ->
    related_runs RG RT (generateArithmeticWith maxDepth fuel depth g1)
                       (generateArithmeticWith maxDepth fuel depth g2).
Proof.
  induction fuel as [|fuel IH]; intros depth g1 g2 Hg; [exact I|].
  cbn [generateArithmeticWith].
  apply bind_related with (RA := eq); [now apply stop_here_related|].
  intros [|] ? h1 h2 <- Hh.
  - now apply generateInteger_related.
  - apply bind_related with (RA := RT); [now apply IH|].
    intros l1 l2 i1 i2 Hl Hi.
    apply bind_related with (RA := RT); [now apply IH|].
    intros r1 r2 j1 j2 Hr Hj.
    now apply build_related.
Qed.

Lemma generateBooleanExprWith_related (maxDepth : Z) (fuel : nat) :
  forall depth g1 g2,
    RG g1 g2 ->
    related_runs RG RT (generateBooleanExprWith maxDepth fuel depth g1)
                       (generateBooleanExprWith maxDepth fuel depth g2).
Proof.
  induction fuel as [|fuel IH]; intros depth g1 g2 Hg; [exact I|].
  cbn [generateBooleanExprWith].
  apply bind_related with (RA := eq); [now apply stop_here_related|].
  intros [|] ? h1 h2 <- Hh.
  - apply bind_related with (RA := eq); [now apply draw_related|].
    intros c ? i1 i2 <- Hi.
    destruct (c mod 2 =? 0); [now apply generateBoolean_related|].
    apply bind_related with (RA := RT);
      [now apply generateArithmeticWith_related|].
    intros l1 l2 j1 j2 Hl Hj.
    apply bind_related with (RA := RT);
      [now apply generateArithmeticWith_related|].
    intros r1 r2 k1 k2 Hr Hk.
    now apply build_related.
  - apply bind_related with (RA := RT); [now apply IH|].
    intros l1 l2 i1 i2 Hl Hi.
    apply bind_related with (RA := RT); [now apply IH|].
    intros r1 r2 j1 j2 Hr Hj.
    now apply build_related.
Qed.

Lemma generateBooleanExpr_related (fuel : nat) (depth : Z) (g1 : G1) (g2 : G2) :
  RG g1 g2 ->
  related_runs RG RT (generateBooleanExpr fuel depth g1)
                     (generateBooleanExpr fuel depth g2).
Proof.
  rewrite !generateBooleanExpr_capped. apply generateBooleanExprWith_related.
Qed.

Lemma generateArithmetic_related (fuel : nat) (depth : Z) (g1 : G1) (g2 : G2) :
  RG g1 g2 ->
  related_runs RG RT (generateArithmetic fuel depth g1)
                     (generateArithmetic fuel depth g2).
Proof.
  rewrite !generateArithmetic_capped. apply generateArithmeticWith_related.
Qed.

End Related.

(** ** The mock's strings are printed trees *)

Lemma same_draws_eq {G : Type} `{RandomSource G} : same_draws (@eq G).
Proof. intros g1 g2 <-. repeat split. Qed.

Lemma map_render_value (l1 : list Ast) (l2 : list Term) :
  Forall2 (fun t s => render t = value s) l1 l2 -> map render l1 = map value l2.
Proof. induction 1 as [|t s l1 l2 Hts _ IH]; cbn; congruence. Qed.

Lemma tree_mock_same_terms :
  @same_terms Ast Term Tree Mock (fun t s => render t = value s).
Proof.
  split; [|split; [|split]].
  - reflexivity.
  - intros [|]; reflexivity.
  - intros kind l1 l2 Hl. cbn. unfold Mock_mkTerm. cbn.
    now rewrite (map_render_value l1 l2 Hl).
  - intros t1 t2 Hts. exact Hts.
Qed.

Section MockAndTree.

Context {G : Type} `{RandomSource G}.

(** A run of the source's generator on mock terms is the run on trees,
    printed. *)
Lemma generateBooleanExpr_prints_tree (fuel : nat) (depth : Z) (g g' : G) (s : Term) :
  generateBooleanExpr (T := Term) fuel depth g = Some (s, g') ->
  exists t : Ast,
    generateBooleanExpr (T := Ast) fuel depth g = Some (t, g') /\
    render t = value s.
Proof.
  intros Hrun.
  pose proof (generateBooleanExpr_related (api1 := Tree) (api2 := Mock)
                eq (fun t s => render t = value s)
                same_draws_eq tree_mock_same_terms fuel depth g g eq_refl) as Hrel.
  rewrite Hrun in Hrel. unfold related_runs in Hrel.
  destruct (generateBooleanExpr (T := Ast) fuel depth g) as [[t h]|];
    [|contradiction].
  destruct Hrel as [Hts <-]. exists t. split; [reflexivity|exact Hts].
Qed.

Lemma generateArithmetic_prints_tree (fuel : nat) (depth : Z) (g g' : G) (s : Term) :
  generateArithmetic (T := Term) fuel depth g = Some (s, g') ->
  exists t : Ast,
    generateArithmetic (T := Ast) fuel depth g = Some (t, g') /\
    render t = value s.
Proof.
  intros Hrun.
  pose proof (generateArithmetic_related (api1 := Tree) (api2 := Mock)
                eq (fun t s => render t = value s)
                same_draws_eq tree_mock_same_terms fuel depth g g eq_refl) as Hrel.
  rewrite Hrun in Hrel. unfold related_runs in Hrel.
  destruct (generateArithmetic (T := Ast) fuel depth g) as [[t h]|];
    [|contradiction].
  destruct Hrel as [Hts <-]. exists t. split; [reflexivity|exact Hts].
Qed.

End MockAndTree.

(** ** Typing *)

Lemma Sort_eqb_eq (a b : Sort) : Sort_eqb a b = true <-> a = b.
Proof. destruct a, b; cbn; split; congruence. Qed.

(** What the type check says at an operation. *)
Lemma typeOf_Operation (kind : Kind) (children : list Ast) (s : Sort) :
  typeOf (Operation kind children) = Some s ->
  exists a b,
    children = [a; b] /\
    typeOf a = Some (operand_sort kind) /\
    typeOf b = Some (operand_sort kind) /\
    s = result_sort kind.
Proof.
  cbn [typeOf].
  destruct children as [|a [|b [|c rest]]]; try discriminate.
  destruct (typeOf a) as [sa|] eqn:Ea; [|discriminate].
  destruct (typeOf b) as [sb|] eqn:Eb; [|discriminate].
  destruct (Sort_eqb sa (operand_sort kind)) eqn:Esa; [|discriminate].
  destruct (Sort_eqb sb (operand_sort kind)) eqn:Esb; [|discriminate].
  apply Sort_eqb_eq in Esa, Esb. subst sa sb.
  cbn. intros [= <-]. exists a, b. auto.
Qed.

Lemma typeOf_Operation_intro (kind : Kind) (a b : Ast) :
  typeOf a = Some (operand_sort kind) ->
  typeOf b = Some (operand_sort kind) ->
  typeOf (Operation kind [a; b]) = Some (result_sort kind).
Proof.
  intros Ha Hb. cbn [typeOf]. rewrite Ha, Hb.
  destruct (operand_sort kind); reflexivity.
Qed.

(** Every subterm of a typed term is typed. *)
Lemma typeOf_subterm (u t : Ast) :
  subterm u t -> forall s, typeOf t = Some s -> exists s', typeOf u = Some s'.
Proof.
  induction 1 as [t|u kind children c Hin _ IH]; intros s Ht; [eauto|].
  apply typeOf_Operation in Ht. destruct Ht as (a & b & -> & Ha & Hb & _).
  destruct Hin as [<-|[<-|[]]]; eauto.
Qed.

Lemma typeOf_Arithmetic_shape (t : Ast) :
  typeOf t = Some Arithmetic -> is_arithmetic_term t = true.
Proof.
  destruct t as [v|b|kind children]; cbn [is_arithmetic_term]; try easy.
  intros Ht. apply typeOf_Operation in Ht.
  destruct Ht as (_ & _ & _ & _ & _ & Hs). now destruct kind.
Qed.

Lemma typeOf_Boolean_shape (t : Ast) :
  typeOf t = Some Boolean -> is_boolean_term t = true.
Proof.
  destruct t as [v|b|kind children]; cbn [is_boolean_term]; try easy.
  intros Ht. apply typeOf_Operation in Ht.
  destruct Ht as (_ & _ & _ & _ & _ & Hs). now destruct kind.
Qed.

(** In a typed term every operation has exactly two children, typed as
    its kind demands. *)
Lemma typed_operations (t : Ast) (s : Sort) :
  typeOf t = Some s ->
  forall kind children,
    subterm (Operation kind children) t ->
    exists a b,
      children = [a; b] /\
      typeOf a = Some (operand_sort kind) /\
      typeOf b = Some (operand_sort kind).
Proof.
  intros Ht kind children Hsub.
  destruct (typeOf_subterm _ _ Hsub _ Ht) as [s' Hs'].
  apply typeOf_Operation in Hs'. destruct Hs' as (a & b & ? & ? & ? & _). eauto.
Qed.

(** An arithmetic term holds arithmetic operations only. *)
Lemma arithmetic_operations (u t : Ast) :
  subterm u t -> typeOf t = Some Arithmetic -> typeOf u = Some Arithmetic.
Proof.
  induction 1 as [t|u kind children c Hin _ IH]; intros Ht; [exact Ht|].
  apply typeOf_Operation in Ht. destruct Ht as (a & b & -> & Ha & Hb & Hs).
  assert (Hop : operand_sort kind = Arithmetic) by now destruct kind.
  rewrite Hop in Ha, Hb.
  destruct Hin as [<-|[<-|[]]]; auto.
Qed.

Section TypedGenerators.

Context {G : Type} `{RandomSource G}.

Lemma generateArithmeticWith_typed (maxDepth : Z) (fuel : nat) :
  forall depth (g g' : G) (t : Ast),
    generateArithmeticWith maxDepth fuel depth g = Some (t, g') ->
    typeOf t = Some Arithmetic.
Proof.
  induction fuel as [|fuel IH]; intros depth g g' t Hrun; [discriminate|].
  cbn [generateArithmeticWith] in Hrun.
  bind_inv Hrun stop g1 Hstop. destruct stop.
  - rewrite generateInteger_eq in Hrun. now injection Hrun as <- _.
  - bind_inv Hrun l g2 Hl. bind_inv Hrun r g3 Hr.
    rewrite build_eq in Hrun. injection Hrun as <- _.
    apply IH in Hl, Hr.
    destruct (pick_kind_cases ADD SUB MULT ADD (fst (rng_call g3))) as [-> | [-> | ->]];
      match goal with
      | |- typeOf (Operation ?k _) = _ => exact (typeOf_Operation_intro k l r Hl Hr)
      end.
Qed.

Lemma generateBooleanExprWith_typed (maxDepth : Z) (fuel : nat) :
  forall depth (g g' : G) (t : Ast),
    generateBooleanExprWith maxDepth fuel depth g = Some (t, g') ->
    typeOf t = Some Boolean.
Proof.
  induction fuel as [|fuel IH]; intros depth g g' t Hrun; [discriminate|].
  cbn [generateBooleanExprWith] in Hrun.
  bind_inv Hrun stop g1 Hstop. destruct stop.
  - bind_inv Hrun c g2 Hc.
    destruct (c mod 2 =? 0).
    + rewrite generateBoolean_eq in Hrun. now injection Hrun as <- _.
    + bind_inv Hrun l g3 Hl. bind_inv Hrun r g4 Hr.
      rewrite build_eq in Hrun. injection Hrun as <- _.
      apply generateArithmeticWith_typed in Hl, Hr.
      destruct (pick_kind_cases GT LT EQUAL EQUAL (fst (rng_call g4))) as [-> | [-> | ->]];
        match goal with
      | |- typeOf (Operation ?k _) = _ => exact (typeOf_Operation_intro k l r Hl Hr)
      end.
  - bind_inv Hrun l g2 Hl. bind_inv Hrun r g3 Hr.
    rewrite build_eq in Hrun. injection Hrun as <- _.
    apply IH in Hl, Hr.
    destruct (pick_kind_cases AND OR XOR AND (fst (rng_call g3))) as [-> | [-> | ->]];
      match goal with
      | |- typeOf (Operation ?k _) = _ => exact (typeOf_Operation_intro k l r Hl Hr)
      end.
Qed.

End TypedGenerators.

(** C1.  Every term [generateBooleanExpr] returns, at any depth argument
    and from any state of the random source, is Boolean-typed under the
    recursive type check, and every operation occurring in it has exactly
    two children: Arithmetic-typed ones (integer literals or [ADD], [SUB],
    [MULT] operations) under a comparison [GT], [LT], [EQUAL] or an
    arithmetic operator, Boolean-typed ones under a connective [AND], [OR],
    [XOR].  Every term [generateArithmetic] returns is Arithmetic-typed and
    holds arithmetic operators only, each over two Arithmetic-typed
    children.  The string the source's mock solver builds in a run of
    [generateBooleanExpr] is the printed form of such a tree. *)
Theorem generated_terms_well_typed {G : Type} `{RandomSource G}
    (fuel : nat) (depth : Z) (g : G) :
  (forall (t : Ast) g',
      generateBooleanExpr (T := Ast) fuel depth g = Some (t, g') ->
      typeOf t = Some Boolean /\
      forall kind children,
        subterm (Operation kind children) t ->
        exists a b,
          children = [a; b] /\
          (is_comparison_kind kind = true \/ is_arithmetic_kind kind = true ->
           typeOf a = Some Arithmetic /\ typeOf b = Some Arithmetic /\
           is_arithmetic_term a = true /\ is_arithmetic_term b = true) /\
          (is_connective_kind kind = true ->
           typeOf a = Some Boolean /\ typeOf b = Some Boolean /\
           is_boolean_term a = true /\ is_boolean_term b = true)) /\
  (forall (t : Ast) g',
      generateArithmetic (T := Ast) fuel depth g = Some (t, g') ->
      typeOf t = Some Arithmetic /\
      forall kind children,
        subterm (Operation kind children) t ->
        is_arithmetic_kind kind = true /\
        exists a b,
          children = [a; b] /\
          typeOf a = Some Arithmetic /\ typeOf b = Some Arithmetic /\
          is_arithmetic_term a = true /\ is_arithmetic_term b = true) /\
  (forall (s : Term) g',
      generateBooleanExpr (T := Term) fuel depth g = Some (s, g') ->
      exists t : Ast,
        generateBooleanExpr (T := Ast) fuel depth g = Some (t, g') /\
        value s = render t /\ typeOf t = Some Boolean).
Proof.
  split; [|split].
  - intros t g' Hrun. rewrite generateBooleanExpr_capped in Hrun.
    apply generateBooleanExprWith_typed in Hrun. split; [exact Hrun|].
    intros kind children Hsub.
    destruct (typed_operations t _ Hrun kind children Hsub)
      as (a & b & -> & Ha & Hb).
    exists a, b. split; [reflexivity|]. split.
    + intros Hkind.
      assert (Hop : operand_sort kind = Arithmetic)
        by (destruct kind, Hkind; try discriminate; reflexivity).
      rewrite Hop in Ha, Hb. auto using typeOf_Arithmetic_shape.
    + intros Hkind.
      assert (Hop : operand_sort kind = Boolean)
        by (destruct kind; try discriminate; reflexivity).
      rewrite Hop in Ha, Hb. auto using typeOf_Boolean_shape.
  - intros t g' Hrun. rewrite generateArithmetic_capped in Hrun.
    apply generateArithmeticWith_typed in Hrun. split; [exact Hrun|].
    intros kind children Hsub.
    pose proof (arithmetic_operations _ _ Hsub Hrun) as Hop.
    apply typeOf_Operation in Hop. destruct Hop as (a & b & -> & Ha & Hb & Hs).
    assert (Hkind : is_arithmetic_kind kind = true)
      by (destruct kind; try discriminate; reflexivity).
    split; [exact Hkind|].
    assert (Hop : operand_sort kind = Arithmetic)
      by (destruct kind; try discriminate; reflexivity).
    rewrite Hop in Ha, Hb. exists a, b. auto 6 using typeOf_Arithmetic_shape.
  - intros s g' Hrun.
    destruct (generateBooleanExpr_prints_tree fuel depth g g' s Hrun)
      as (t & Ht & Hts).
    exists t. split; [exact Ht|]. split; [now symmetry|].
    rewrite generateBooleanExpr_capped in Ht.
    now apply generateBooleanExprWith_typed in Ht.
Qed.

(** The first constraint of a fuzzer whose engine was seeded with 3. *)
Lemma generated_terms_well_typed_witness :
  exists g',
    generateBooleanExpr 7 0 (mt19937.seed 3)
    = Some (Operation OR [BoolLiteral true;
                          Operation OR [BoolLiteral false; BoolLiteral true]], g')
    /\ typeOf (Operation OR [BoolLiteral true;
                             Operation OR [BoolLiteral false; BoolLiteral true]])
       = Some Boolean.
Proof.
  eexists. split.
  - vm_compute. reflexivity.
  - eapply (proj1 (generated_terms_well_typed 7 0 (mt19937.seed 3))).
    vm_compute. reflexivity.
Defined.

(** ** Depth *)

Section Depth.

Context {G : Type} `{RandomSource G}.

Lemma stop_here_false (cap m depth : Z) (g g1 : G) :
  stop_here cap m depth g = Some (false, g1) -> depth <= cap.
Proof.
  destruct (stop_here_cases cap m depth g)
    as [[Hd Hs]|[[Hd Hs]|(Hd & Hd' & Hs)]]; rewrite Hs; intros E;
    try discriminate E; lia.
Qed.

Lemma generateArithmeticWith_depth (maxDepth : Z) (fuel : nat) :
  forall depth (g g' : G) (t : Ast),
    generateArithmeticWith maxDepth fuel depth g = Some (t, g') ->
    Z.of_nat (term_depth t) <= Z.max 0 (maxDepth + 1 - depth).
Proof.
  induction fuel as [|fuel IH]; intros depth g g' t Hrun; [discriminate|].
  cbn [generateArithmeticWith] in Hrun.
  bind_inv Hrun stop g1 Hstop. destruct stop.
  - rewrite generateInteger_eq in Hrun. injection Hrun as <- _. cbn. lia.
  - apply stop_here_false in Hstop.
    bind_inv Hrun l g2 Hl. bind_inv Hrun r g3 Hr.
    rewrite build_eq in Hrun. injection Hrun as <- _.
    apply IH in Hl, Hr. cbn [term_depth map list_max fold_right]. lia.
Qed.

End Depth.

(** C2.  A term returned by [generateArithmetic(0)] under the cap
    [maxDepth = d >= 0] has depth at most [d + 1], a literal counting 0 and
    an operation one more than its deepest child; with the source's cap 2
    the depth is at most 3. *)
Theorem generateArithmetic_depth {G : Type} `{RandomSource G}
    (d : Z) (fuel : nat) (g g' : G) (t : Ast) :
  (0 <= d ->
   generateArithmeticWith d fuel 0 g = Some (t, g') ->
   Z.of_nat (term_depth t) <= d + 1) /\
  (generateArithmetic fuel 0 g = Some (t, g') -> (term_depth t <= 3)%nat).
Proof.
  split.
  - intros Hd Hrun. apply generateArithmeticWith_depth in Hrun. lia.
  - intros Hrun. rewrite generateArithmetic_capped in Hrun.
    apply generateArithmeticWith_depth in Hrun. lia.
Qed.

(** The bound is reached: an engine seeded with 4 yields
    [(- (- 9 ( * 95 71)) 20)], of depth 3. *)
Lemma generateArithmetic_depth_witness :
  exists g',
    generateArithmetic 4 0 (mt19937.seed 4)
    = Some (Operation SUB
              [Operation SUB
                 [IntLiteral 9; Operation MULT [IntLiteral 95; IntLiteral 71]];
               IntLiteral 20], g')
    /\ term_depth
         (Operation SUB
            [Operation SUB
               [IntLiteral 9; Operation MULT [IntLiteral 95; IntLiteral 71]];
             IntLiteral 20]) = 3%nat
    /\ (term_depth
          (Operation SUB
             [Operation SUB
                [IntLiteral 9; Operation MULT [IntLiteral 95; IntLiteral 71]];
              IntLiteral 20]) <= 3)%nat.
Proof.
  eexists. split; [vm_compute; reflexivity|]. split; [reflexivity|].
  eapply (proj2 (generateArithmetic_depth 2 4 (mt19937.seed 4) _ _)).
  vm_compute. reflexivity.
Defined.

(** ** Comparisons *)

(** C8.  Whenever a call of [generateBooleanExpr], at any [depth], returns
    a comparison, its two operands are the results of two successive calls
    [generateArithmetic(0)]: the arithmetic depth counter starts at 0
    whatever the Boolean depth.  The calls start from the engine [g0] left
    by the stopping test and the odd coin that chose the comparison. *)
Theorem comparison_operands_start_at_depth_0 {G : Type} `{RandomSource G}
    (fuel : nat) (depth : Z) (g g' : G) (kind : Kind) (children : list Ast) :
  generateBooleanExpr (S fuel) depth g = Some (Operation kind children, g') ->
  is_comparison_kind kind = true ->
  exists ga g0 left g1 right g2,
    stop_here 1 2 depth g = Some (true, ga) /\
    fst (rng_call ga) mod 2 <> 0 /\ g0 = snd (rng_call ga) /\
    generateArithmetic fuel 0 g0 = Some (left, g1) /\
    generateArithmetic fuel 0 g1 = Some (right, g2) /\
    children = [left; right] /\
    kind = pick_kind GT LT EQUAL EQUAL (fst (rng_call g2)) /\
    g' = snd (rng_call g2).
Proof.
  intros Hrun Hkind. cbn [generateBooleanExpr] in Hrun.
  bind_inv Hrun stop ga Hstop. destruct stop.
  - bind_inv Hrun c g0 Hc. rewrite draw_eq in Hc. injection Hc as <- <-.
    destruct (Z.eqb_spec (fst (rng_call ga) mod 2) 0) as [Heven|Hodd].
    + rewrite generateBoolean_eq in Hrun. discriminate.
    + bind_inv Hrun l g1 Hl. bind_inv Hrun r g2 Hr.
      rewrite build_eq in Hrun. injection Hrun as <- <- <-.
      exists ga, (snd (rng_call ga)), l, g1, r, g2. auto 10.
  - bind_inv Hrun l g1 Hl. bind_inv Hrun r g2 Hr.
    rewrite build_eq in Hrun. injection Hrun as <- _ _.
    destruct (pick_kind_cases AND OR XOR AND (fst (rng_call g2))) as [E | [E | E]];
      rewrite E in Hkind; discriminate.
Qed.

(** At Boolean depth 2, an engine seeded with 5 yields
    [(> (- 75 -59) (+ ( * (- -2 -82) 53) -3))]: the right operand uses the
    whole arithmetic depth budget. *)
Lemma comparison_operands_start_at_depth_0_witness :
  exists g' g0 g1 g2,
    generateBooleanExpr 5 2 (mt19937.seed 5)
    = Some (Operation GT
              [Operation SUB [IntLiteral 75; IntLiteral (-59)];
               Operation ADD
                 [Operation MULT
                    [Operation SUB [IntLiteral (-2); IntLiteral (-82)];
                     IntLiteral 53];
                  IntLiteral (-3)]], g') /\
    generateArithmetic 4 0 g0
    = Some (Operation SUB [IntLiteral 75; IntLiteral (-59)], g1) /\
    generateArithmetic 4 0 g1
    = Some (Operation ADD
              [Operation MULT
                 [Operation SUB [IntLiteral (-2); IntLiteral (-82)];
                  IntLiteral 53];
               IntLiteral (-3)], g2).
Proof.
  assert (Hrun : exists g',
             generateBooleanExpr 5 2 (mt19937.seed 5)
             = Some (Operation GT
                       [Operation SUB [IntLiteral 75; IntLiteral (-59)];
                        Operation ADD
                          [Operation MULT
                             [Operation SUB [IntLiteral (-2); IntLiteral (-82)];
                              IntLiteral 53];
                           IntLiteral (-3)]], g')).
  { eexists. vm_compute. reflexivity. }
  destruct Hrun as [g' Hrun].
  destruct (comparison_operands_start_at_depth_0 4 2 _ _ _ _ Hrun eq_refl)
    as (ga & g0 & l & g1 & r & g2 & _ & _ & _ & Hl & Hr & Hc & _).
  injection Hc as <- <-.
  exists g', g0, g1, g2. auto.
Defined.

(** ** The solver's constraint state *)

Section SolverState.

Context {T : Type}.

Lemma assert_all_constraints (formulas : list T) :
  forall s, constraints (assert_all formulas s) = (constraints s ++ formulas)%list.
Proof.
  induction formulas as [|f rest IH]; intros s; cbn.
  - now rewrite app_nil_r.
  - unfold assert_all in IH. rewrite IH. cbn. now rewrite <- app_assoc.
Qed.

Lemma check_repeatedly_frame (n : nat) (s : Solver T) :
  check_repeatedly n s = (repeat (fst (checkSat s)) n, s).
Proof.
  induction n as [|n IH]; [reflexivity|].
  cbn [check_repeatedly repeat]. cbn [checkSat fst] in *. now rewrite IH.
Qed.

End SolverState.

(** C9.  [assertFormula] appends its formula to the solver's constraints
    and leaves the earlier ones in place and in order (so a sequence of
    assertions appends the sequence); [resetAssertions] leaves no
    constraint, whatever was there; [checkSat] returns the solver it was
    given, so any number of calls in a row leave the constraints as they
    were and return the same result every time. *)
Theorem solver_constraint_state {T : Type} (s : Solver T) (formula : T)
    (formulas : list T) (n : nat) :
  constraints (assertFormula formula s) = (constraints s ++ [formula])%list /\
  constraints (assert_all formulas s) = (constraints s ++ formulas)%list /\
  constraints (resetAssertions s) = [] /\
  snd (checkSat s) = s /\
  check_repeatedly n s = (repeat (fst (checkSat s)) n, s) /\
  fst (checkSat (snd (checkSat s))) = fst (checkSat s).
Proof.
  repeat split.
  - apply assert_all_constraints.
  - apply check_repeatedly_frame.
Qed.

(** ** The driver, call by call *)

Section DriverFacts.

Context {G T : Type} `{RandomSource G} `{TermAPI T}.

(** The inner loop asserts the next [n] generated terms, in order. *)
Lemma for_constraints_eq (fuel n : nat) :
  forall (i : Z) (constraints0 : list T) (tf : TypeFuzz G T),
    for_constraints fuel n i constraints0 tf
    = match boolean_terms fuel n (rng tf) with
      | None => None
      | Some (new, g') =>
          Some (constraint_events i new, (constraints0 ++ new)%list,
                mkTypeFuzz (assert_all new (solver tf)) g')
      end.
Proof.
  induction n as [|n IH]; intros i constraints0 tf.
  - cbn. rewrite app_nil_r. destruct tf; reflexivity.
  - cbn [for_constraints boolean_terms]. unfold pbind at 1, generate at 1.
    destruct (generateBooleanExpr fuel 0 (rng tf)) as [[c g1]|]; [|reflexivity].
    unfold pbind at 1, call_assertFormula at 1.
    unfold pbind at 1, cout at 1.
    rewrite IH. cbn [rng solver].
    destruct (boolean_terms fuel n g1) as [[new g2]|]; [|reflexivity].
    cbn. now rewrite <- app_assoc.
Qed.

(** One test case: its constraints are the next [constraints_per_test]
    generated terms, and it leaves the solver without constraints. *)
Lemma test_case_eq (fuel : nat) (test_num constraints_per_test : Z)
    (tf : TypeFuzz G T) :
  test_case fuel test_num constraints_per_test tf
  = match boolean_terms fuel (Z.to_nat constraints_per_test) (rng tf) with
    | None => None
    | Some (new, g') =>
        Some (test_events test_num new, new, mkTypeFuzz (mkSolver []) g')
    end.
Proof.
  unfold test_case. unfold pbind at 1, cout at 1. unfold pbind at 1, cout at 1.
  unfold pbind at 1. rewrite for_constraints_eq.
  destruct (boolean_terms fuel (Z.to_nat constraints_per_test) (rng tf))
    as [[new g']|]; reflexivity.
Qed.

Lemma for_tests_eq (fuel n : nat) (constraints_per_test : Z) :
  forall (test_num : Z) (tf : TypeFuzz G T),
    for_tests fuel n test_num constraints_per_test tf
    = match campaign_terms fuel n (Z.to_nat constraints_per_test) (rng tf) with
      | None => None
      | Some (tests, g') =>
          Some (tests_events test_num tests, tests,
                mkTypeFuzz (match n with
                            | O => solver tf
                            | S _ => mkSolver []
                            end) g')
      end.
Proof.
  induction n as [|n IH]; intros test_num tf.
  - cbn. destruct tf; reflexivity.
  - cbn [for_tests campaign_terms]. unfold pbind at 1. rewrite test_case_eq.
    destruct (boolean_terms fuel (Z.to_nat constraints_per_test) (rng tf))
      as [[new g1]|]; [|reflexivity].
    unfold pbind at 1. rewrite IH. cbn [rng solver].
    destruct (campaign_terms fuel n (Z.to_nat constraints_per_test) g1)
      as [[tests g2]|]; [|reflexivity].
    cbn [pret]. rewrite app_nil_r. destruct n; reflexivity.
Qed.

(** The whole driver, as a function of the terms it generates. *)
Lemma fuzz_eq (fuel : nat) (num_tests constraints_per_test : Z) (tf : TypeFuzz G T) :
  fuzz fuel num_tests constraints_per_test tf
  = match campaign_terms fuel (Z.to_nat num_tests)
                         (Z.to_nat constraints_per_test) (rng tf) with
    | None => None
    | Some (tests, g') =>
        Some ((header_events ++ tests_events 0 tests ++ footer_events num_tests)%list,
              tests,
              mkTypeFuzz (match Z.to_nat num_tests with
                          | O => solver tf
                          | S _ => mkSolver []
                          end) g')
    end.
Proof.
  unfold fuzz. do 3 (unfold pbind at 1, cout at 1).
  unfold pbind at 1. rewrite for_tests_eq.
  destruct (campaign_terms fuel (Z.to_nat num_tests)
                           (Z.to_nat constraints_per_test) (rng tf))
    as [[tests g']|]; reflexivity.
Qed.

End DriverFacts.

(** ** The terms and the solver calls of a campaign *)

Section CampaignFacts.

Context {G T : Type} `{RandomSource G} `{TermAPI T}.

Lemma boolean_terms_returns (fuel n : nat) :
  (boolean_fuel 2 0 <= fuel)%nat ->
  forall g : G, exists (ts : list T) g', boolean_terms fuel n g = Some (ts, g').
Proof.
  intros Hfuel. induction n as [|n IH]; intros g; cbn [boolean_terms]; [eauto|].
  destruct (generateBooleanExprWith_returns (T := T) 2 fuel 0 g Hfuel)
    as (t & g1 & Ht).
  rewrite generateBooleanExpr_capped, Ht. destruct (IH g1) as (ts & g2 & Hts). rewrite Hts. eauto.
Qed.

Lemma campaign_terms_returns (fuel n k : nat) :
  (boolean_fuel 2 0 <= fuel)%nat ->
  forall g : G,
  exists (tests : list (list T)) g', campaign_terms fuel n k g = Some (tests, g').
Proof.
  intros Hfuel. induction n as [|n IH]; intros g; cbn [campaign_terms]; [eauto|].
  destruct (boolean_terms_returns fuel k Hfuel g) as (ts & g1 & Hts).
  rewrite Hts. destruct (IH g1) as (tests & g2 & Htests). rewrite Htests. eauto.
Qed.

Lemma boolean_terms_length (fuel n : nat) :
  forall (g g' : G) (ts : list T),
    boolean_terms fuel n g = Some (ts, g') -> List.length ts = n.
Proof.
  induction n as [|n IH]; intros g g' ts; cbn [boolean_terms].
  - now intros [= <- _].
  - destruct (generateBooleanExpr fuel 0 g) as [[t g1]|]; [|discriminate].
    destruct (boolean_terms fuel n g1) as [[ts' g2]|] eqn:E; [|discriminate].
    intros [= <- _]. cbn. f_equal. eapply IH, E.
Qed.

Lemma campaign_terms_shape (fuel n k : nat) :
  forall (g g' : G) (tests : list (list T)),
    campaign_terms fuel n k g = Some (tests, g') ->
    List.length tests = n /\ Forall (fun cs => List.length cs = k) tests.
Proof.
  induction n as [|n IH]; intros g g' tests; cbn [campaign_terms].
  - intros [= <- _]. split; [reflexivity|constructor].
  - destruct (boolean_terms fuel k g) as [[ts g1]|] eqn:Ets; [|discriminate].
    destruct (campaign_terms fuel n k g1) as [[tests' g2]|] eqn:E; [|discriminate].
    intros [= <- _]. destruct (IH _ _ _ E) as [Hlen Hall].
    apply boolean_terms_length in Ets.
    split; [cbn; congruence|constructor; assumption].
Qed.

(** Without tests, or without constraints in a test, nothing is generated
    and no fuel is needed. *)
Lemma campaign_terms_no_test (fuel k : nat) (g : G) :
  campaign_terms (T := T) fuel O k g = Some ([], g).
Proof. reflexivity. Qed.

Lemma campaign_terms_no_constraint (fuel n : nat) (g : G) :
  campaign_terms (T := T) fuel n O g = Some (repeat [] n, g).
Proof.
  induction n as [|n IH]; [reflexivity|].
  cbn [campaign_terms boolean_terms repeat]. now rewrite IH.
Qed.

Lemma solver_calls_app (e1 e2 : list (Event T)) :
  solver_calls (e1 ++ e2) = (solver_calls e1 ++ solver_calls e2)%list.
Proof.
  induction e1 as [|[s|f| |] e1 IH]; cbn; [reflexivity|assumption|..];
    now rewrite IH.
Qed.

Lemma solver_calls_constraint_events (constraints : list T) :
  forall i, solver_calls (constraint_events i constraints)
            = map CallAssertFormula constraints.
Proof.
  induction constraints as [|c rest IH]; intros i; cbn; [reflexivity|].
  now rewrite IH.
Qed.

Lemma solver_calls_tests_events (tests : list (list T)) :
  forall test_num,
    solver_calls (tests_events test_num tests) = flat_map test_solver_calls tests.
Proof.
  induction tests as [|cs rest IH]; intros test_num; [reflexivity|].
  cbn [tests_events flat_map]. rewrite solver_calls_app, IH. f_equal.
  unfold test_events, test_solver_calls.
  rewrite !solver_calls_app, solver_calls_constraint_events. reflexivity.
Qed.

End CampaignFacts.

Lemma boolean_terms_typed {G : Type} `{RandomSource G} (fuel n : nat) :
  forall (g g' : G) (ts : list Ast),
    boolean_terms fuel n g = Some (ts, g') ->
    Forall (fun t => typeOf t = Some Boolean) ts.
Proof.
  induction n as [|n IH]; intros g g' ts; cbn [boolean_terms].
  - intros [= <- _]. constructor.
  - destruct (generateBooleanExpr fuel 0 g) as [[t g1]|] eqn:Et; [|discriminate].
    destruct (boolean_terms fuel n g1) as [[ts' g2]|] eqn:E; [|discriminate].
    intros [= <- _]. constructor; [|eapply IH, E].
    rewrite generateBooleanExpr_capped in Et.
    eapply generateBooleanExprWith_typed, Et.
Qed.


(** What [fuzz(1, 1)] writes when the engine was seeded with 13. *)
Example fuzz_stdout :
  option_map (fun r => stdout (fst (fst r)))
    (fuzz 7 1 1 (TypeFuzz_new (G := mt19937.state) (T := Term) 13))
  = Some "TypeFuzz Prototype - My C++ Implementation
==============================================
Using cvc5 C++ API for constraint generation and solving

Test Case 1:
----------------------------------------------
  Constraint 0: (and false false)
  Satisfiability: sat
  SATISFIABLE - Constraints are consistent
----------------------------------------------

==============================================
TypeFuzz completed 1 test cases
Note: This uses mock cvc5 classes for demonstration.
      Replace with #include <cvc5/cvc5.h> for real usage.
"%string.
Proof. vm_compute. reflexivity. Qed.

(** On trees, every constraint of a campaign is Boolean-typed. *)
Lemma campaign_terms_typed {G : Type} `{RandomSource G} (fuel n k : nat) :
  forall (g g' : G) (tests : list (list Ast)),
    campaign_terms fuel n k g = Some (tests, g') ->
    Forall (Forall (fun t => typeOf t = Some Boolean)) tests.
Proof.
  induction n as [|n IH]; intros g g' tests; cbn [campaign_terms].
  - intros [= <- _]. constructor.
  - destruct (boolean_terms fuel k g) as [[ts g1]|] eqn:Ets; [|discriminate].
    destruct (campaign_terms fuel n k g1) as [[tests' g2]|] eqn:E; [|discriminate].
    intros [= <- _]. constructor; [eapply boolean_terms_typed, Ets|eapply IH, E].
Qed.


(** ** The lines of the report *)

Section ReportLines.

Context {T : Type} `{TermAPI T}.

Lemma count_line_app (line : string) (e1 e2 : list (Event T)) :
  count_line line (e1 ++ e2) = (count_line line e1 + count_line line e2)%nat.
Proof.
  unfold count_line.
  induction e1 as [|[s|f| |] e1 IH]; cbn [cout_lines app filter]; try assumption.
  - reflexivity.
  - destruct (String.eqb line s); cbn [List.length]; now rewrite IH.
Qed.

(** A line that starts like a constraint line, a test-case heading or
    the closing count is none of the three result lines. *)
Lemma not_a_result_line (x : string) :
  let results := [unsat_line; sat_line; consistent_line] in
  Forall (fun line =>
            String.eqb line ("  Constraint " ++ x) = false /\
            String.eqb line ("Test Case " ++ x) = false /\
            String.eqb line ("TypeFuzz completed " ++ x) = false) results.
Proof. repeat constructor. Qed.

Ltac skip_line x :=
  let F := fresh "F" in
  pose proof (not_a_result_line x) as F; cbv zeta in F;
  repeat match type of F with
         | Forall _ (_ :: _) =>
             let F1 := fresh "F" in
             let F2 := fresh "F" in
             apply Forall_cons_iff in F; destruct F as [F1 F];
             destruct F1 as (? & ? & ?)
         end;
  clear F.

(** The constraint lines are none of the three result lines. *)
Lemma count_line_constraint_events (constraints : list T) :
  forall i,
    count_line unsat_line (constraint_events i constraints) = O /\
    count_line sat_line (constraint_events i constraints) = O /\
    count_line consistent_line (constraint_events i constraints) = O.
Proof.
  induction constraints as [|c rest IH]; intros i; [repeat split|].
  destruct (IH (i + 1)) as (IH1 & IH2 & IH3).
  unfold count_line in *. cbn [constraint_events cout_lines filter].
  skip_line (to_string i ++ ": " ++ toString c ++ endl)%string.
  repeat match goal with E : String.eqb _ _ = false |- _ => rewrite E; clear E end.
  repeat split; assumption.
Qed.

(** Each test case writes the [sat] line and the [SATISFIABLE] line once,
    and never the [UNSATISFIABLE] line. *)
Lemma count_line_test_events (test_num : Z) (constraints : list T) :
  count_line unsat_line (test_events test_num constraints) = O /\
  count_line sat_line (test_events test_num constraints) = 1%nat /\
  count_line consistent_line (test_events test_num constraints) = 1%nat.
Proof.
  unfold test_events. rewrite !count_line_app.
  destruct (count_line_constraint_events constraints 0) as (-> & -> & ->).
  unfold count_line. cbn [cout_lines filter].
  skip_line (to_string (test_num + 1) ++ ":" ++ endl)%string.
  repeat match goal with E : String.eqb _ _ = false |- _ => rewrite E; clear E end.
  repeat split; vm_compute; reflexivity.
Qed.

Lemma count_line_tests_events (tests : list (list T)) :
  forall test_num,
    count_line unsat_line (tests_events test_num tests) = O /\
    count_line sat_line (tests_events test_num tests) = List.length tests /\
    count_line consistent_line (tests_events test_num tests) = List.length tests.
Proof.
  induction tests as [|cs rest IH]; intros test_num; [repeat split|].
  cbn [tests_events List.length]. rewrite !count_line_app.
  destruct (IH (test_num + 1)) as (-> & -> & ->).
  destruct (count_line_test_events test_num cs) as (-> & -> & ->).
  auto.
Qed.

Lemma count_line_header_footer (num_tests : Z) :
  count_line unsat_line
    (header_events (T := T) ++ footer_events (T := T) num_tests) = O /\
  count_line sat_line
    (header_events (T := T) ++ footer_events (T := T) num_tests) = O /\
  count_line consistent_line
    (header_events (T := T) ++ footer_events (T := T) num_tests) = O.
Proof.
  unfold count_line, header_events, footer_events. cbn [app cout_lines filter].
  skip_line (to_string num_tests ++ " test cases" ++ endl)%string.
  repeat match goal with E : String.eqb _ _ = false |- _ => rewrite E; clear E end.
  repeat split; vm_compute; reflexivity.
Qed.

End ReportLines.

(** C10.  The mock's [Result::isSat()] is true for the result of every
    [checkSat], whatever was asserted, and [isUnsat()] is false; so every
    test case of a campaign writes ["  Satisfiability: sat"] followed by the
    [SATISFIABLE] line, one of each per test case, and the line
    ["  UNSATISFIABLE - Constraints are inconsistent"] of the [else] branch
    is never written. *)
Theorem mock_solver_always_sat {G T : Type} `{RandomSource G} `{TermAPI T}
    (s : Solver T) (fuel : nat) (N K : Z) (tf : TypeFuzz G T) :
  isSat (fst (checkSat s)) = true /\
  isUnsat (fst (checkSat s)) = false /\
  Result_toString (fst (checkSat s)) = "sat"%string /\
  forall trace tests tf',
    fuzz fuel N K tf = Some (trace, tests, tf') ->
    count_line unsat_line trace = O /\
    count_line sat_line trace = Z.to_nat N /\
    count_line consistent_line trace = Z.to_nat N.
Proof.
  split; [reflexivity|]. split; [reflexivity|]. split; [reflexivity|].
  intros trace tests tf'. rewrite fuzz_eq.
  destruct (campaign_terms fuel (Z.to_nat N) (Z.to_nat K) (rng tf))
    as [[tests0 g']|] eqn:Hrun; [|discriminate].
  intros [= <- <- _].
  apply campaign_terms_shape in Hrun. destruct Hrun as [Hlen _].
  assert (Hsplit : forall line,
             count_line line
               (header_events ++ tests_events 0 tests0 ++ footer_events N)
             = (count_line line (header_events (T := T) ++ footer_events N)
                + count_line line (tests_events 0 tests0))%nat).
  { intros line. rewrite !count_line_app. lia. }
  rewrite !Hsplit.
  destruct (count_line_header_footer (T := T) N) as (-> & -> & ->).
  destruct (count_line_tests_events tests0 0) as (-> & -> & ->).
  cbn [Nat.add]. auto.
Qed.

Lemma mock_solver_always_sat_witness :
  exists trace tests tf',
    fuzz 7 3 2 (TypeFuzz_new (G := mt19937.state) (T := Term) 42)
    = Some (trace, tests, tf') /\
    count_line unsat_line trace = O /\
    count_line sat_line trace = 3%nat /\
    count_line consistent_line trace = 3%nat.
Proof.
  destruct (fuzz 7 3 2 (TypeFuzz_new (G := mt19937.state) (T := Term) 42))
    as [[[trace tests] tf']|] eqn:Hrun; [|vm_compute in Hrun; discriminate Hrun].
  exists trace, tests, tf'. split; [reflexivity|].
  exact (proj2 (proj2 (proj2
           (mock_solver_always_sat (mkSolver []) 7 3 2
              (TypeFuzz_new (G := mt19937.state) (T := Term) 42))))
           trace tests tf' Hrun).
Defined.

(** ** Parameters the driver does not check *)

(** C7, as the code has it.  [fuzz] checks none of its parameters and
    reports no error.  When [numTests <= 0] or [constraintsPerTest <= 0]
    the call runs to its end with any fuel: no term is generated and the
    random source is left as it was; each of the [Z.to_nat numTests]
    iterations calls [checkSat] and [resetAssertions] on an empty set of
    constraints, and with [numTests <= 0] the trace is the header and the
    footer alone and the solver is untouched. *)
Theorem fuzz_unchecked_parameters {G T : Type} `{RandomSource G} `{TermAPI T}
    (fuel : nat) (N K : Z) (tf : TypeFuzz G T) :
  N <= 0 \/ K <= 0 ->
  exists trace tf',
    fuzz fuel N K tf = Some (trace, repeat [] (Z.to_nat N), tf') /\
    rng tf' = rng tf /\
    solver_calls trace
    = flat_map test_solver_calls (repeat (@nil T) (Z.to_nat N)) /\
    (N <= 0 ->
     trace = (header_events ++ footer_events N)%list /\ solver tf' = solver tf).
Proof.
  intros Hinvalid. rewrite fuzz_eq.
  assert (Hrun : campaign_terms (T := T) fuel (Z.to_nat N) (Z.to_nat K) (rng tf)
                 = Some (repeat [] (Z.to_nat N), rng tf)).
  { destruct Hinvalid as [HN|HK].
    - replace (Z.to_nat N) with O by lia. reflexivity.
    - replace (Z.to_nat K) with O by lia. apply campaign_terms_no_constraint. }
  rewrite Hrun. eexists _, _. split; [reflexivity|]. split; [reflexivity|]. split.
  - rewrite !solver_calls_app, solver_calls_tests_events. cbn.
    now rewrite app_nil_r.
  - intros HN. replace (Z.to_nat N) with O by lia. split; reflexivity.
Qed.

Lemma fuzz_unchecked_parameters_witness :
  exists trace tf',
    fuzz 0 2 0 (TypeFuzz_new (G := mt19937.state) (T := Term) 0)
    = Some (trace, [[]; []], tf') /\
    rng tf' = mt19937.seed 0 /\
    solver_calls trace
    = [CallCheckSat; CallResetAssertions; CallCheckSat; CallResetAssertions].
Proof.
  destruct (fuzz_unchecked_parameters 0 2 0
              (TypeFuzz_new (G := mt19937.state) (T := Term) 0))
    as (trace & tf' & Hrun & Hrng & Hcalls & _); [right; lia|].
  exists trace, tf'. auto.
Defined.

(** C7, as stated, fails: [fuzz(-1, 3)] is not refused but runs to its
    end, writing the header and ["TypeFuzz completed -1 test cases"]; and
    [fuzz(2, 0)] runs two test cases without constraints, each reported
    [sat]. *)
Lemma fuzz_accepts_invalid_parameters :
  (exists tf',
      fuzz 0 (-1) 3 (TypeFuzz_new (G := mt19937.state) (T := Term) 0)
      = Some ((header_events ++ footer_events (-1))%list, [], tf')) /\
  (exists trace tf',
      fuzz 0 2 0 (TypeFuzz_new (G := mt19937.state) (T := Term) 0)
      = Some (trace, [[]; []], tf') /\
      count_line sat_line trace = 2%nat /\
      count_line consistent_line trace = 2%nat /\
      solver_calls trace
      = [CallCheckSat; CallResetAssertions; CallCheckSat; CallResetAssertions]).
Proof.
  split.
  - eexists. reflexivity.
  - eexists _, _. split; [reflexivity|]. repeat split; vm_compute; reflexivity.
Qed.

(** ** Reproducibility *)

Lemma same_terms_eq {T : Type} `{TermAPI T} : same_terms (@eq T).
Proof.
  split; [|split; [|split]]; try reflexivity.
  - intros kind l1 l2 Hl. f_equal.
    induction Hl as [|a b l1 l2 Hab _ IH]; congruence.
  - now intros t1 t2 <-.
Qed.

Lemma Forall2_eq_eq {A : Type} (l1 l2 : list A) : Forall2 eq l1 l2 -> l1 = l2.
Proof. induction 1; congruence. Qed.

Lemma Forall2_Forall2_eq_eq {A : Type} (l1 l2 : list (list A)) :
  Forall2 (Forall2 eq) l1 l2 -> l1 = l2.
Proof.
  induction 1 as [|a b l1 l2 Hab _ IH]; [reflexivity|].
  apply Forall2_eq_eq in Hab. congruence.
Qed.

Section SameDraws.

Context {G1 G2 T1 T2 : Type}.
Context {src1 : RandomSource G1} {src2 : RandomSource G2}.
Context {api1 : TermAPI T1} {api2 : TermAPI T2}.
Variable RG : G1 -> G2 -> Prop.
Variable RT : T1 -> T2 -> Prop.
Hypothesis Hdraws : same_draws RG.
Hypothesis Hterms : same_terms RT.

Lemma boolean_terms_related (fuel n : nat) :
  forall g1 g2,
    RG g1 g2 ->
    related_runs RG (Forall2 RT) (boolean_terms fuel n g1) (boolean_terms fuel n g2).
Proof.
  induction n as [|n IH]; intros g1 g2 Hg; cbn [boolean_terms]; [now cbn|].
  pose proof (generateBooleanExpr_related RG RT Hdraws Hterms fuel 0 g1 g2 Hg)
    as Hfirst.
  unfold related_runs in Hfirst.
  destruct (generateBooleanExpr fuel 0 g1) as [[t1 h1]|],
           (generateBooleanExpr fuel 0 g2) as [[t2 h2]|]; try contradiction;
    [|exact I].
  destruct Hfirst as [Ht Hh]. specialize (IH h1 h2 Hh).
  unfold related_runs in IH |- *.
  destruct (boolean_terms fuel n h1) as [[ts1 i1]|],
           (boolean_terms fuel n h2) as [[ts2 i2]|]; try contradiction; [|exact I].
  destruct IH as [Hts Hi]. auto.
Qed.

Lemma campaign_terms_related (fuel n k : nat) :
  forall g1 g2,
    RG g1 g2 ->
    related_runs RG (Forall2 (Forall2 RT))
      (campaign_terms fuel n k g1) (campaign_terms fuel n k g2).
Proof.
  induction n as [|n IH]; intros g1 g2 Hg; cbn [campaign_terms]; [now cbn|].
  pose proof (boolean_terms_related fuel k g1 g2 Hg) as Hfirst.
  unfold related_runs in Hfirst.
  destruct (boolean_terms fuel k g1) as [[ts1 h1]|],
           (boolean_terms fuel k g2) as [[ts2 h2]|]; try contradiction; [|exact I].
  destruct Hfirst as [Hts Hh]. specialize (IH h1 h2 Hh).
  unfold related_runs in IH |- *.
  destruct (campaign_terms fuel n k h1) as [[tss1 i1]|],
           (campaign_terms fuel n k h2) as [[tss2 i2]|]; try contradiction;
    [|exact I].
  destruct IH as [Htss Hi]. auto.
Qed.

End SameDraws.

(** The constraints of a campaign on the source's mock terms are the
    printed forms of Boolean-typed trees: those of the same campaign run on
    trees. *)
Lemma mock_campaign_prints_typed_trees {G : Type} `{RandomSource G}
    (fuel n k : nat) (g g' : G) (tests : list (list Term)) :
  campaign_terms (T := Term) fuel n k g = Some (tests, g') ->
  exists trees : list (list Ast),
    campaign_terms (T := Ast) fuel n k g = Some (trees, g') /\
    Forall2 (Forall2 (fun t s => render t = value s)) trees tests /\
    Forall (Forall (fun t => typeOf t = Some Boolean)) trees.
Proof.
  intros Hrun.
  pose proof (campaign_terms_related (api1 := Tree) (api2 := Mock)
                eq (fun t s => render t = value s)
                same_draws_eq tree_mock_same_terms fuel n k g g eq_refl) as Hrel.
  rewrite Hrun in Hrel. unfold related_runs in Hrel.
  destruct (campaign_terms (T := Ast) fuel n k g) as [[trees h]|] eqn:Htrees;
    [|contradiction].
  destruct Hrel as [Hprint <-]. exists trees.
  split; [reflexivity|]. split; [exact Hprint|].
  eapply campaign_terms_typed, Htrees.
Qed.

(** C4, as the code has it.  The engine is seeded once, in the
    constructor, from [std::random_device]; neither the constructor nor
    [fuzz] takes a seed, and [fuzz] takes [numTests] and
    [constraintsPerTest] only.  What a campaign generates is determined by
    the values its engine hands out and by those two parameters: two
    campaigns with the same parameters whose engines (of one kind or of two)
    hand out the same draws, whatever their solvers hold, generate the same
    sequence of terms and the same trace, or both stop for lack of fuel. *)
Theorem campaigns_with_same_draws {G1 G2 T : Type}
    {src1 : RandomSource G1} {src2 : RandomSource G2} {api : TermAPI T}
    (RG : G1 -> G2 -> Prop) (fuel : nat) (N K : Z)
    (tf1 : TypeFuzz G1 T) (tf2 : TypeFuzz G2 T) :
  same_draws RG ->
  RG (rng tf1) (rng tf2) ->
  match fuzz fuel N K tf1, fuzz fuel N K tf2 with
  | Some (trace1, tests1, tf1'), Some (trace2, tests2, tf2') =>
      tests1 = tests2 /\ trace1 = trace2 /\ RG (rng tf1') (rng tf2')
  | None, None => True
  | _, _ => False
  end.
Proof.
  intros Hdraws Hrng. rewrite !fuzz_eq.
  pose proof (campaign_terms_related RG eq Hdraws same_terms_eq fuel (Z.to_nat N)
                (Z.to_nat K) (rng tf1) (rng tf2) Hrng) as Hrel.
  unfold related_runs in Hrel.
  destruct (campaign_terms fuel (Z.to_nat N) (Z.to_nat K) (rng tf1))
    as [[tests1 g1]|],
    (campaign_terms fuel (Z.to_nat N) (Z.to_nat K) (rng tf2))
    as [[tests2 g2]|]; try contradiction; [|exact I].
  destruct Hrel as [Htests Hg]. apply Forall2_Forall2_eq_eq in Htests.
  subst tests2. auto.
Qed.

(** The engine and the engine with a call counter hand out the same
    draws. *)
Lemma counted_same_draws :
  @same_draws mt19937.state Counted.state StdMt19937 Counted.Source
    (fun s c => s = snd c).
Proof.
  intros s [n e] Hs. cbn [snd] in Hs. subst e.
  cbn [rng_call dist_call StdMt19937 Counted.Source].
  unfold Counted.call, Counted.dist. cbn [snd fst]. split.
  - destruct (mt19937.call s); split; reflexivity.
  - intros min max. destruct (mt19937.dist min max s); split; reflexivity.
Qed.

Lemma campaigns_with_same_draws_witness :
  match fuzz 7 3 2 (TypeFuzz_new (G := mt19937.state) (T := Term) 42),
        fuzz (H := Counted.Source) 7 3 2
          (mkTypeFuzz (assertFormula (mkTermOfString "true") Solver_new)
                      (Counted.seed 42))
  with
  | Some (trace1, tests1, tf1'), Some (trace2, tests2, tf2') =>
      tests1 = tests2 /\ trace1 = trace2 /\ rng tf1' = snd (rng tf2')
  | None, None => True
  | _, _ => False
  end.
Proof.
  apply (campaigns_with_same_draws (src2 := Counted.Source)
           (fun s c => s = snd c) 7 3 2).
  - exact counted_same_draws.
  - reflexivity.
Defined.

(** C4, as stated, fails: the same program with the same parameters,
    [fuzz(1, 1)] on a freshly constructed fuzzer, generates
    [(and false false)] when [std::random_device] returns 13 and
    [(or true (or false true))] when it returns 3; no parameter selects
    one or the other, and two runs of [main] differ in the same way.
    Neither term holds an integer: the runs do not depend on how
    [uniform_int_distribution] draws.  The draws each run consumes are
    listed: seven after seed 13 (even, even, even for [false]; even, even,
    even for [false]; a multiple of 3 for [AND]) and ten after seed 3. *)
Lemma same_parameters_different_terms :
  exists trace1 tf1 trace2 tf2,
    fuzz 7 1 1 (TypeFuzz_new (G := mt19937.state) (T := Term) 13)
    = Some (trace1, [[mkTermOfString "(and false false)"]], tf1) /\
    mt19937.first_calls 7 (mt19937.seed 13)
    = [3340206418; 2608511152; 1020231754; 3691240976; 3540249318;
       3835331426; 4147861236] /\
    fuzz 7 1 1 (TypeFuzz_new (G := mt19937.state) (T := Term) 3)
    = Some (trace2, [[mkTermOfString "(or true (or false true))"]], tf2) /\
    mt19937.first_calls 10 (mt19937.seed 3)
    = [2365658986; 303761048; 3041471737; 3607553667; 1249426360; 521102280;
       2193987840; 2445173525; 3835177981; 1877166739] /\
    [[mkTermOfString "(and false false)"]]
    <> [[mkTermOfString "(or true (or false true))"]] /\
    option_map (fun r => snd (fst r)) (main 7 13)
    <> option_map (fun r => snd (fst r)) (main 7 3).
Proof.
  eexists _, _, _, _. do 4 (split; [vm_compute; reflexivity|]).
  split; [discriminate|].
  intros E.
  apply (f_equal (fun o => match o with
                           | Some ((t :: _) :: _) => value t
                           | _ => EmptyString
                           end)) in E.
  vm_compute in E. discriminate E.
Qed.

(* ================================================================= *)
(** * Further properties of the code *)

(** ** Induction on trees *)

Lemma Ast_induction (P : Ast -> Prop) :
  (forall v, P (IntLiteral v)) ->
  (forall b, P (BoolLiteral b)) ->
  (forall kind children, Forall P children -> P (Operation kind children)) ->
  forall t, P t.
Proof.
  intros Hint Hbool Hop. fix IH 1.
  intros [v|b|kind children]; [apply Hint|apply Hbool|].
  apply Hop. induction children as [|c rest IHrest]; constructor;
    [apply IH|exact IHrest].
Qed.

(** ** Strings *)

Section Strings.

Local Open Scope string_scope.

Lemma append_assoc (a b c : string) : (a ++ b) ++ c = a ++ (b ++ c).
Proof. induction a as [|x a IH]; cbn; [reflexivity|now rewrite IH]. Qed.

Lemma append_nil_r (a : string) : a ++ EmptyString = a.
Proof. induction a as [|x a IH]; cbn; [reflexivity|now rewrite IH]. Qed.

Lemma append_children_spaced (children : list string) :
  forall result, append_children result children = result ++ spaced children.
Proof.
  induction children as [|child rest IH]; intros result; cbn [append_children spaced].
  - now rewrite append_nil_r.
  - rewrite IH, !append_assoc. reflexivity.
Qed.

Lemma string_forall_app (p : ascii -> bool) (a b : string) :
  string_forall p (a ++ b) = string_forall p a && string_forall p b.
Proof.
  induction a as [|x a IH]; cbn; [reflexivity|]. now rewrite IH, andb_assoc.
Qed.

Lemma paren_scan_app (a b : string) :
  forall n,
    paren_scan (a ++ b) n
    = match paren_scan a n with
      | Some m => paren_scan b m
      | None => None
      end.
Proof.
  induction a as [|x a IH]; intros n; cbn; [reflexivity|].
  destruct (Ascii.eqb x "("); [apply IH|].
  destruct (Ascii.eqb x ")"); [|apply IH].
  destruct n; [reflexivity|apply IH].
Qed.

(** A string balanced from 0 is balanced from any number of pending
    parentheses. *)
Lemma paren_scan_shift (s : string) :
  forall a b n, paren_scan s a = Some b -> paren_scan s (a + n) = Some (b + n)%nat.
Proof.
  induction s as [|x s IH]; intros a b n; cbn.
  - now intros [= <-].
  - destruct (Ascii.eqb x "("); [apply (IH (S a))|].
    destruct (Ascii.eqb x ")"); [|apply IH].
    destruct a as [|a]; [discriminate|]. apply IH.
Qed.

Lemma balanced_scan (s : string) :
  balanced s = true <-> forall n, paren_scan s n = Some n.
Proof.
  unfold balanced. split.
  - intros Hs n. destruct (paren_scan s 0) as [[|m]|] eqn:E; try discriminate.
    apply (paren_scan_shift s 0 0 n E).
  - intros Hs. now rewrite Hs.
Qed.

(** A string of token characters holds no parenthesis. *)
Lemma token_scan (s : string) :
  string_forall is_token_char s = true -> forall n, paren_scan s n = Some n.
Proof.
  induction s as [|x s IH]; intros Hs n; cbn in *; [reflexivity|].
  apply andb_prop in Hs. destruct Hs as [Hx Hs].
  unfold is_token_char, is_delimiter in Hx.
  destruct (Ascii.eqb x " "), (Ascii.eqb x "("), (Ascii.eqb x ")");
    try discriminate. now apply IH.
Qed.

Lemma spaced_scan (children : list string) :
  Forall (fun c => balanced c = true) children ->
  forall n, paren_scan (spaced children) n = Some n.
Proof.
  induction 1 as [|child rest Hchild _ IH]; intros n; [reflexivity|].
  change (spaced (child :: rest)) with (String " " (child ++ spaced rest)).
  change (paren_scan (String " " (child ++ spaced rest)) n)
    with (paren_scan (child ++ spaced rest) n).
  rewrite paren_scan_app, (proj1 (balanced_scan child) Hchild). apply IH.
Qed.

(** The decimal digits of a number are token characters. *)
Lemma string_of_uint_token (d : Decimal.uint) :
  string_forall is_token_char (NilEmpty.string_of_uint d) = true.
Proof. induction d; cbn; auto. Qed.

Lemma to_string_token (v : Z) : string_forall is_token_char (to_string v) = true.
Proof.
  unfold to_string, NilZero.string_of_int, NilZero.string_of_uint.
  destruct (Z.to_int v) as [d|d]; destruct d; cbn;
    auto using string_of_uint_token.
Qed.

Lemma kind_str_token (kind : Kind) :
  string_forall is_token_char (kind_str kind) = true.
Proof. now destruct kind. Qed.

End Strings.

(** ** Printed terms are balanced *)

Section PrintedForm.

Local Open Scope string_scope.

Lemma Mock_mkTerm_value (kind : Kind) (children : list Term) :
  value (Mock_mkTerm kind children)
  = "(" ++ kind_str kind ++ spaced (map value children) ++ ")".
Proof.
  unfold Mock_mkTerm. cbn [value].
  rewrite append_children_spaced, !append_assoc. reflexivity.
Qed.

Lemma render_Operation (kind : Kind) (children : list Ast) :
  render (Operation kind children)
  = "(" ++ kind_str kind ++ spaced (map render children) ++ ")".
Proof.
  cbn [render]. rewrite append_children_spaced, !append_assoc. reflexivity.
Qed.

Lemma operation_string_balanced (kind : Kind) (children : list string) :
  Forall (fun c => balanced c = true) children ->
  balanced ("(" ++ kind_str kind ++ spaced children ++ ")") = true.
Proof.
  intros Hchildren. apply balanced_scan. intros n.
  change ("(" ++ kind_str kind ++ spaced children ++ ")")
    with (String "(" (kind_str kind ++ spaced children ++ ")")).
  change (paren_scan (String "(" (kind_str kind ++ spaced children ++ ")")) n)
    with (paren_scan (kind_str kind ++ spaced children ++ ")") (S n)).
  rewrite paren_scan_app, (token_scan _ (kind_str_token kind)).
  rewrite paren_scan_app, (spaced_scan _ Hchildren). reflexivity.
Qed.

Lemma render_balanced (t : Ast) : balanced (render t) = true.
Proof.
  induction t as [v|b|kind children IH] using Ast_induction.
  - apply balanced_scan, token_scan, to_string_token.
  - now destruct b.
  - rewrite render_Operation. apply operation_string_balanced.
    now apply Forall_map.
Qed.

End PrintedForm.

(** X1.  The mock's term builders keep parentheses balanced: the strings of
    [mkInteger] and [mkBoolean] are balanced, [mkTerm] over children whose
    strings are balanced gives a balanced string, and so every term the
    generators return prints with each [")"] closing an earlier ["("] and
    none left open. *)
Theorem mock_terms_balanced :
  (forall v, balanced (value (mkInteger v)) = true) /\
  (forall b, balanced (value (mkBoolean b)) = true) /\
  (forall kind (children : list Term),
      Forall (fun c => balanced (value c) = true) children ->
      balanced (value (mkTerm kind children)) = true) /\
  (forall (G : Type) (src : RandomSource G) fuel depth (g g' : G) (s : Term),
      generateBooleanExpr fuel depth g = Some (s, g') ->
      balanced (value s) = true) /\
  (forall (G : Type) (src : RandomSource G) fuel depth (g g' : G) (s : Term),
      generateArithmetic fuel depth g = Some (s, g') ->
      balanced (value s) = true).
Proof.
  split; [|split; [|split; [|split]]].
  - intros v. apply balanced_scan, token_scan, to_string_token.
  - now intros [|].
  - intros kind children Hchildren. cbn [mkTerm Mock].
    rewrite Mock_mkTerm_value. apply operation_string_balanced.
    now apply Forall_map.
  - intros G src fuel depth g g' s Hrun.
    destruct (generateBooleanExpr_prints_tree fuel depth g g' s Hrun)
      as (t & _ & <-).
    apply render_balanced.
  - intros G src fuel depth g g' s Hrun.
    destruct (generateArithmetic_prints_tree fuel depth g g' s Hrun)
      as (t & _ & <-).
    apply render_balanced.
Qed.

Lemma mock_terms_balanced_witness :
  balanced
    (value (mkTerm GT [mkTermOfString "(+ 1 2)"; mkTermOfString "3"])) = true.
Proof.
  apply (proj1 (proj2 (proj2 mock_terms_balanced))).
  repeat constructor.
Defined.

(** ** Reading printed terms back *)

Section ReadBack.

Local Open Scope string_scope.

Lemma length_append (a b : string) :
  String.length (a ++ b) = (String.length a + String.length b)%nat.
Proof. induction a as [|x a IH]; cbn; [reflexivity|now rewrite IH]. Qed.

Lemma take_token_app (token rest : string) :
  string_forall is_token_char token = true ->
  starts_delimited rest = true ->
  take_token (token ++ rest) = (token, rest).
Proof.
  intros Htoken Hrest. induction token as [|x token IH]; cbn in *.
  - destruct rest as [|c rest]; [reflexivity|]. cbn in *. now rewrite Hrest.
  - apply andb_prop in Htoken. destruct Htoken as [Hx Htoken].
    unfold is_token_char in Hx. apply negb_true_iff in Hx.
    rewrite Hx, (IH Htoken). reflexivity.
Qed.

Lemma strip_open_token (token rest : string) :
  token <> EmptyString ->
  string_forall is_token_char token = true ->
  strip_open (token ++ rest) = None.
Proof.
  destruct token as [|x token]; [contradiction|]. intros _ Htoken. cbn in *.
  apply andb_prop in Htoken. destruct Htoken as [Hx _].
  unfold is_token_char, is_delimiter in Hx.
  destruct (Ascii.eqb x " "), (Ascii.eqb x "("); now try discriminate.
Qed.

Lemma kind_of_token_kind_str (kind : Kind) :
  kind_of_token (kind_str kind) = Some kind.
Proof. now destruct kind. Qed.

Lemma string_of_uint_number (d : Decimal.uint) :
  string_forall is_number_char (NilEmpty.string_of_uint d) = true.
Proof. induction d; cbn; auto. Qed.

Lemma to_string_number (v : Z) : string_forall is_number_char (to_string v) = true.
Proof.
  unfold to_string, NilZero.string_of_int, NilZero.string_of_uint.
  destruct (Z.to_int v) as [d|d]; destruct d; cbn;
    auto using string_of_uint_number.
Qed.

Lemma to_string_nonempty (v : Z) : to_string v <> EmptyString.
Proof.
  unfold to_string, NilZero.string_of_int, NilZero.string_of_uint.
  destruct (Z.to_int v) as [d|d]; destruct d; discriminate.
Qed.

Lemma to_int_not_nil (v : Z) :
  Z.to_int v <> Decimal.Pos Decimal.Nil /\ Z.to_int v <> Decimal.Neg Decimal.Nil.
Proof.
  destruct v as [|p|p]; cbn; split; try discriminate;
    intros [= E]; now apply (DecimalPos.Unsigned.to_uint_nonnil p).
Qed.

(** [std::to_string] loses nothing: the digits read back as the number. *)
Lemma int_of_string_to_string (v : Z) :
  option_map Z.of_int (NilZero.int_of_string (to_string v)) = Some v.
Proof.
  unfold to_string. destruct (to_int_not_nil v) as [Hpos Hneg].
  rewrite (NilZero.isi _ Hpos Hneg). cbn. f_equal. apply DecimalZ.of_to.
Qed.

Lemma literal_of_token_to_string (v : Z) :
  literal_of_token (to_string v) = Some (IntLiteral v).
Proof.
  unfold literal_of_token.
  assert (Hnot : forall word,
             string_forall is_number_char word = false ->
             String.eqb (to_string v) word = false).
  { intros word Hword. apply String.eqb_neq. intros E.
    rewrite <- E, to_string_number in Hword. discriminate. }
  rewrite (Hnot "true" eq_refl), (Hnot "false" eq_refl).
  pose proof (int_of_string_to_string v) as Hv.
  destruct (NilZero.int_of_string (to_string v)) as [d|]; [|discriminate].
  cbn in *. congruence.
Qed.

Lemma spaced_starts_delimited (children rest : list string) (tail : string) :
  starts_delimited (spaced children ++ ")" ++ tail) = true.
Proof. destruct children; reflexivity. Qed.

(** Reading the children of an operation, given that each child reads
    back. *)
Lemma read_children_spaced (children : list Ast) :
  Forall (fun c => forall rest fuel,
              starts_delimited rest = true ->
              (read_fuel c <= fuel)%nat ->
              read_term fuel (render c ++ rest) = Some (c, rest)) children ->
  forall rest fuel,
    (S (List.length children + list_max (map read_fuel children)) <= fuel)%nat ->
    read_children fuel (spaced (map render children) ++ ")" ++ rest)
    = Some (children, rest).
Proof.
  induction 1 as [|c children Hc _ IH]; intros rest fuel Hfuel;
    (destruct fuel as [|fuel]; [lia|]).
  - reflexivity.
  - cbn [map spaced List.length] in *.
    assert (Hmax : list_max (read_fuel c :: map read_fuel children)
                   = Nat.max (read_fuel c) (list_max (map read_fuel children)))
      by reflexivity.
    rewrite Hmax in Hfuel.
    change (read_children (S fuel)
              ((" " ++ render c ++ spaced (map render children)) ++ ")" ++ rest))
      with (match read_term fuel
                    ((render c ++ spaced (map render children)) ++ ")" ++ rest) with
            | Some (child, r) =>
                match read_children fuel r with
                | Some (cs, r') => Some (child :: cs, r')
                | None => None
                end
            | None => None
            end).
    rewrite append_assoc.
    rewrite (Hc _ fuel (spaced_starts_delimited _ [] rest)) by lia.
    rewrite IH by lia. reflexivity.
Qed.

Lemma read_term_render (t : Ast) :
  forall rest fuel,
    starts_delimited rest = true ->
    (read_fuel t <= fuel)%nat ->
    read_term fuel (render t ++ rest) = Some (t, rest).
Proof.
  induction t as [v|b|kind children IH] using Ast_induction;
    intros rest fuel Hrest Hfuel; (destruct fuel as [|fuel]; [cbn in Hfuel; lia|]).
  - cbn [read_term render].
    rewrite (strip_open_token _ _ (to_string_nonempty v) (to_string_token v)).
    rewrite (take_token_app _ _ (to_string_token v) Hrest).
    now rewrite literal_of_token_to_string.
  - cbn [read_term render]. destruct b.
    + rewrite (strip_open_token "true" rest) by easy.
      now rewrite (take_token_app "true" rest eq_refl Hrest).
    + rewrite (strip_open_token "false" rest) by easy.
      now rewrite (take_token_app "false" rest eq_refl Hrest).
  - rewrite render_Operation, !append_assoc.
    cbn [read_fuel] in Hfuel. cbn [read_term].
    change (strip_open ("(" ++ kind_str kind ++ spaced (map render children)
                            ++ ")" ++ rest))
      with (Some (kind_str kind ++ spaced (map render children) ++ ")" ++ rest)).
    cbv iota.
    rewrite (take_token_app _ _ (kind_str_token kind)
               (spaced_starts_delimited _ [] rest)).
    rewrite kind_of_token_kind_str.
    rewrite (read_children_spaced children IH) by lia. reflexivity.
Qed.

Lemma list_max_le_sum (l : list nat) : (list_max l <= list_sum l)%nat.
Proof.
  induction l as [|a l IH]; [reflexivity|].
  change (list_max (a :: l)) with (Nat.max a (list_max l)).
  change (list_sum (a :: l)) with (a + list_sum l)%nat. lia.
Qed.

Lemma length_spaced (children : list string) :
  String.length (spaced children)
  = (List.length children + list_sum (map String.length children))%nat.
Proof.
  induction children as [|c rest IH]; [reflexivity|].
  cbn [spaced map List.length].
  change (list_sum (String.length c :: map String.length rest))
    with (String.length c + list_sum (map String.length rest))%nat.
  change (" " ++ c ++ spaced rest) with (String " " (c ++ spaced rest)).
  cbn [String.length]. rewrite length_append, IH. lia.
Qed.

Lemma list_sum_le (f g : Ast -> nat) (l : list Ast) :
  Forall (fun t => (f t <= g t)%nat) l ->
  (list_sum (map f l) <= list_sum (map g l))%nat.
Proof.
  induction 1 as [|t l Ht _ IH]; [reflexivity|].
  cbn [map].
  change (list_sum (f t :: map f l)) with (f t + list_sum (map f l))%nat.
  change (list_sum (g t :: map g l)) with (g t + list_sum (map g l))%nat. lia.
Qed.

(** A printed term is at least as long as the fuel its reading takes. *)
Lemma read_fuel_length (t : Ast) : (read_fuel t <= String.length (render t))%nat.
Proof.
  induction t as [v|b|kind children IH] using Ast_induction.
  - cbn. pose proof (to_string_nonempty v). destruct (to_string v); [easy|cbn; lia].
  - destruct b; cbn; lia.
  - rewrite render_Operation.
    change ("(" ++ kind_str kind ++ spaced (map render children) ++ ")")
      with (String "(" (kind_str kind ++ spaced (map render children) ++ ")")).
    cbn [String.length read_fuel].
    rewrite !length_append, length_spaced, !length_map, map_map. cbn [String.length].
    pose proof (list_max_le_sum (map read_fuel children)).
    pose proof (list_sum_le read_fuel (fun t => String.length (render t)) children IH).
    lia.
Qed.

Lemma parse_render (t : Ast) : parse (render t) = Some t.
Proof.
  unfold parse.
  pose proof (read_term_render t EmptyString (String.length (render t)) eq_refl
                (read_fuel_length t)) as Hread.
  rewrite append_nil_r in Hread. now rewrite Hread.
Qed.

End ReadBack.

(** X2.  The printed form of a term loses nothing: reading the string the
    mock builds for a tree gives the tree back, so two different trees never
    print as the same string.  This holds for every tree, of any arity and
    whether or not it is well typed. *)
Theorem printed_term_reads_back :
  (forall t : Ast, parse (render t) = Some t) /\
  (forall t1 t2 : Ast, render t1 = render t2 -> t1 = t2).
Proof.
  split; [exact parse_render|].
  intros t1 t2 Heq. pose proof (parse_render t1) as H1.
  rewrite Heq, parse_render in H1. congruence.
Qed.

Lemma printed_term_reads_back_witness :
  Operation GT [IntLiteral (-5); IntLiteral 7]
  = Operation GT [IntLiteral (-5); IntLiteral 7].
Proof.
  apply (proj2 printed_term_reads_back). reflexivity.
Defined.

(** ** The literals and the shape of generated terms *)

Lemma subterm_literal (u : Ast) (t : Ast) :
  subterm u t -> is_operation t = false -> u = t.
Proof. destruct 1; [reflexivity|discriminate]. Qed.

Lemma subterm_pair (u : Ast) (kind : Kind) (l r : Ast) :
  subterm u (Operation kind [l; r]) ->
  u = Operation kind [l; r] \/ subterm u l \/ subterm u r.
Proof.
  intros Hsub. inversion Hsub as [|u' kind' children c Hin Hc]; subst; [now left|].
  destruct Hin as [<-|[<-|[]]]; auto.
Qed.

Section LiteralsAndShape.

Context {G : Type} `{RandomSource G}.

Lemma generateArithmeticWith_literals `{!RandomSourceLaws G} (maxDepth : Z) (fuel : nat) :
  forall depth (g g' : G) (t : Ast),
    generateArithmeticWith maxDepth fuel depth g = Some (t, g') ->
    forall v, subterm (IntLiteral v) t -> -100 <= v <= 100.
Proof.
  induction fuel as [|fuel IH]; intros depth g g' t Hrun v Hsub; [discriminate|].
  cbn [generateArithmeticWith] in Hrun.
  bind_inv Hrun stop g1 Hstop. destruct stop.
  - rewrite generateInteger_eq in Hrun. injection Hrun as <- _.
    apply subterm_literal in Hsub; [|reflexivity]. injection Hsub as ->.
    apply dist_call_range. lia.
  - bind_inv Hrun l g2 Hl. bind_inv Hrun r g3 Hr.
    rewrite build_eq in Hrun. injection Hrun as <- _.
    apply subterm_pair in Hsub. destruct Hsub as [Hsub|[Hsub|Hsub]];
      [discriminate Hsub|exact (IH _ _ _ _ Hl _ Hsub)|exact (IH _ _ _ _ Hr _ Hsub)].
Qed.

Lemma generateBooleanExprWith_literals `{!RandomSourceLaws G} (maxDepth : Z) (fuel : nat) :
  forall depth (g g' : G) (t : Ast),
    generateBooleanExprWith maxDepth fuel depth g = Some (t, g') ->
    forall v, subterm (IntLiteral v) t -> -100 <= v <= 100.
Proof.
  induction fuel as [|fuel IH]; intros depth g g' t Hrun v Hsub; [discriminate|].
  cbn [generateBooleanExprWith] in Hrun.
  bind_inv Hrun stop g1 Hstop. destruct stop.
  - bind_inv Hrun c g2 Hc. destruct (c mod 2 =? 0).
    + rewrite generateBoolean_eq in Hrun. injection Hrun as <- _.
      apply subterm_literal in Hsub; [discriminate|reflexivity].
    + bind_inv Hrun l g3 Hl. bind_inv Hrun r g4 Hr.
      rewrite build_eq in Hrun. injection Hrun as <- _.
      apply subterm_pair in Hsub. destruct Hsub as [Hsub|[Hsub|Hsub]];
        [discriminate Hsub
        |exact (generateArithmeticWith_literals _ _ _ _ _ _ Hl _ Hsub)
        |exact (generateArithmeticWith_literals _ _ _ _ _ _ Hr _ Hsub)].
  - bind_inv Hrun l g2 Hl. bind_inv Hrun r g3 Hr.
    rewrite build_eq in Hrun. injection Hrun as <- _.
    apply subterm_pair in Hsub. destruct Hsub as [Hsub|[Hsub|Hsub]];
      [discriminate Hsub|exact (IH _ _ _ _ Hl _ Hsub)|exact (IH _ _ _ _ Hr _ Hsub)].
Qed.

(** At a depth argument of 0 or less the stopping test is false and draws
    nothing. *)
Lemma stop_here_top (cap m depth : Z) (g : G) :
  0 <= cap -> depth <= 0 -> stop_here cap m depth g = Some (false, g).
Proof.
  intros Hcap Hdepth.
  destruct (stop_here_cases cap m depth g)
    as [[Hd Hs]|[[Hd Hs]|(Hd & Hd' & Hs)]]; try lia. exact Hs.
Qed.

Lemma generateArithmetic_top (fuel : nat) (depth : Z) (g g' : G) (t : Ast) :
  depth <= 0 ->
  generateArithmetic fuel depth g = Some (t, g') ->
  exists kind l r, t = Operation kind [l; r] /\ is_arithmetic_kind kind = true.
Proof.
  intros Hdepth Hrun. destruct fuel as [|fuel]; [discriminate|].
  cbn [generateArithmetic] in Hrun.
  bind_inv Hrun stop g1 Hstop.
  rewrite stop_here_top in Hstop by lia. injection Hstop as <- <-.
  bind_inv Hrun l g2 Hl. bind_inv Hrun r g3 Hr.
  rewrite build_eq in Hrun. injection Hrun as <- _.
  eexists _, l, r. split; [reflexivity|].
  destruct (pick_kind_cases ADD SUB MULT ADD (fst (rng_call g3))) as [-> | [-> | ->]];
    reflexivity.
Qed.

Lemma generateBooleanExpr_top (fuel : nat) (depth : Z) (g g' : G) (t : Ast) :
  depth <= 0 ->
  generateBooleanExpr fuel depth g = Some (t, g') ->
  exists kind l r, t = Operation kind [l; r] /\ is_connective_kind kind = true.
Proof.
  intros Hdepth Hrun. destruct fuel as [|fuel]; [discriminate|].
  cbn [generateBooleanExpr] in Hrun.
  bind_inv Hrun stop g1 Hstop.
  rewrite stop_here_top in Hstop by lia. injection Hstop as <- <-.
  bind_inv Hrun l g2 Hl. bind_inv Hrun r g3 Hr.
  rewrite build_eq in Hrun. injection Hrun as <- _.
  eexists _, l, r. split; [reflexivity|].
  destruct (pick_kind_cases AND OR XOR AND (fst (rng_call g3))) as [-> | [-> | ->]];
    reflexivity.
Qed.

(** No comparison compares a bare literal. *)
Lemma generateBooleanExpr_comparisons (fuel : nat) :
  forall depth (g g' : G) (t : Ast),
    generateBooleanExpr fuel depth g = Some (t, g') ->
    forall kind a b,
      subterm (Operation kind [a; b]) t ->
      is_comparison_kind kind = true ->
      is_operation a = true /\ is_operation b = true.
Proof.
  induction fuel as [|fuel IH]; intros depth g g' t Hrun kind a b Hsub Hkind;
    [discriminate|].
  cbn [generateBooleanExpr] in Hrun.
  bind_inv Hrun stop g1 Hstop. destruct stop.
  - bind_inv Hrun c g2 Hc. destruct (c mod 2 =? 0).
    + rewrite generateBoolean_eq in Hrun. injection Hrun as <- _.
      apply subterm_literal in Hsub; [discriminate|reflexivity].
    + bind_inv Hrun l g3 Hl. bind_inv Hrun r g4 Hr.
      rewrite build_eq in Hrun. injection Hrun as <- _.
      apply subterm_pair in Hsub. destruct Hsub as [Hsub|[Hsub|Hsub]].
      * injection Hsub as _ -> ->.
        destruct (generateArithmetic_top _ _ _ _ _ (Z.le_refl 0) Hl)
          as (? & ? & ? & -> & _).
        destruct (generateArithmetic_top _ _ _ _ _ (Z.le_refl 0) Hr)
          as (? & ? & ? & -> & _).
        split; reflexivity.
      * rewrite generateArithmetic_capped in Hl.
        apply generateArithmeticWith_typed in Hl.
        apply (arithmetic_operations _ _ Hsub), typeOf_Operation in Hl.
        destruct Hl as (_ & _ & _ & _ & _ & Hs). now destruct kind.
      * rewrite generateArithmetic_capped in Hr.
        apply generateArithmeticWith_typed in Hr.
        apply (arithmetic_operations _ _ Hsub), typeOf_Operation in Hr.
        destruct Hr as (_ & _ & _ & _ & _ & Hs). now destruct kind.
  - bind_inv Hrun l g2 Hl. bind_inv Hrun r g3 Hr.
    rewrite build_eq in Hrun. injection Hrun as <- _.
    apply subterm_pair in Hsub. destruct Hsub as [Hsub|[Hsub|Hsub]];
      [|exact (IH _ _ _ _ Hl _ _ _ Hsub Hkind)|exact (IH _ _ _ _ Hr _ _ _ Hsub Hkind)].
    injection Hsub as -> _ _.
    destruct (pick_kind_cases AND OR XOR AND (fst (rng_call g3))) as [E | [E | E]];
      rewrite E in Hkind; discriminate.
Qed.

End LiteralsAndShape.

(** X3.  Every integer literal that occurs anywhere in a term returned by
    [generateArithmetic] or [generateBooleanExpr], at any depth argument,
    lies in [[-100, 100]], given that [uniform_int_distribution] keeps to
    its range. *)
Theorem generated_literals_in_range {G : Type} `{RandomSource G}
    `{!RandomSourceLaws G} (fuel : nat) (depth : Z) (g g' : G) (t : Ast) (v : Z) :
  generateArithmetic fuel depth g = Some (t, g') \/
  generateBooleanExpr fuel depth g = Some (t, g') ->
  subterm (IntLiteral v) t ->
  -100 <= v <= 100.
Proof.
  intros [Hrun|Hrun] Hsub.
  - rewrite generateArithmetic_capped in Hrun.
    eapply generateArithmeticWith_literals; eassumption.
  - rewrite generateBooleanExpr_capped in Hrun.
    eapply generateBooleanExprWith_literals; eassumption.
Qed.

Lemma generated_literals_in_range_witness : -100 <= -3 <= 100.
Proof.
  assert (Hrun : exists g',
             generateBooleanExpr 5 2 (mt19937.seed 5)
             = Some (Operation GT
                       [Operation SUB [IntLiteral 75; IntLiteral (-59)];
                        Operation ADD
                          [Operation MULT
                             [Operation SUB [IntLiteral (-2); IntLiteral (-82)];
                              IntLiteral 53];
                           IntLiteral (-3)]], g')).
  { eexists. vm_compute. reflexivity. }
  destruct Hrun as [g' Hrun].
  apply (generated_literals_in_range 5 2 _ _ _ (-3) (or_intror Hrun)).
  eapply subterm_child; [right; left; reflexivity|].
  eapply subterm_child; [right; left; reflexivity|]. apply subterm_here.
Defined.

(** X4.  A call at depth argument 0 (or less) never returns a bare literal:
    [generateBooleanExpr] returns a connective [AND], [OR] or [XOR] over two
    terms, and [generateArithmetic] an [ADD], [SUB] or [MULT] over two
    terms.  Hence, in a term [generateBooleanExpr] returns at any depth,
    both operands of every comparison are operations. *)
Theorem top_level_terms_are_operations {G : Type} `{RandomSource G}
    (fuel : nat) (depth : Z) (g g' : G) (t : Ast) :
  (depth <= 0 ->
   generateBooleanExpr fuel depth g = Some (t, g') ->
   exists kind l r, t = Operation kind [l; r] /\ is_connective_kind kind = true) /\
  (depth <= 0 ->
   generateArithmetic fuel depth g = Some (t, g') ->
   exists kind l r, t = Operation kind [l; r] /\ is_arithmetic_kind kind = true) /\
  (generateBooleanExpr fuel depth g = Some (t, g') ->
   forall kind a b,
     subterm (Operation kind [a; b]) t ->
     is_comparison_kind kind = true ->
     is_operation a = true /\ is_operation b = true).
Proof.
  split; [|split].
  - apply generateBooleanExpr_top.
  - apply generateArithmetic_top.
  - apply generateBooleanExpr_comparisons.
Qed.

Lemma top_level_terms_are_operations_witness :
  exists kind l r,
    Operation OR [BoolLiteral true; Operation OR [BoolLiteral false; BoolLiteral true]]
    = Operation kind [l; r] /\ is_connective_kind kind = true.
Proof.
  assert (Hrun : exists g',
             generateBooleanExpr 7 0 (mt19937.seed 3)
             = Some (Operation OR
                       [BoolLiteral true;
                        Operation OR [BoolLiteral false; BoolLiteral true]], g')).
  { eexists. vm_compute. reflexivity. }
  destruct Hrun as [g' Hrun].
  apply (proj1 (top_level_terms_are_operations 7 0 _ _ _) (Z.le_refl 0) Hrun).
Defined.

(** ** How large a generated term can be *)

Lemma term_size_pair (kind : Kind) (l r : Ast) :
  term_size (Operation kind [l; r]) = S (term_size l + term_size r).
Proof. cbn. lia. Qed.

Lemma term_depth_pair (kind : Kind) (l r : Ast) :
  term_depth (Operation kind [l; r]) = S (Nat.max (term_depth l) (term_depth r)).
Proof. cbn. lia. Qed.

Lemma full_size_mono (m n : nat) : (m <= n)%nat -> (full_size m <= full_size n)%nat.
Proof.
  induction 1 as [|n _ IH]; [lia|]. cbn [full_size]. lia.
Qed.

Lemma boolean_full_size_mono (m n : nat) :
  (m <= n)%nat -> (boolean_full_size m <= boolean_full_size n)%nat.
Proof.
  induction 1 as [|n _ IH]; [lia|]. cbn [boolean_full_size]. lia.
Qed.

Section Sizes.

Context {G : Type} `{RandomSource G}.

Lemma generateArithmetic_size (fuel : nat) :
  forall depth (g g' : G) (t : Ast),
    generateArithmetic fuel depth g = Some (t, g') ->
    (term_size t <= full_size (Z.to_nat (3 - depth)))%nat.
Proof.
  induction fuel as [|fuel IH]; intros depth g g' t Hrun; [discriminate|].
  cbn [generateArithmetic] in Hrun.
  bind_inv Hrun stop g1 Hstop. destruct stop.
  - rewrite generateInteger_eq in Hrun. injection Hrun as <- _.
    destruct (Z.to_nat (3 - depth)); cbn; lia.
  - apply stop_here_false in Hstop.
    bind_inv Hrun l g2 Hl. bind_inv Hrun r g3 Hr.
    rewrite build_eq in Hrun. injection Hrun as <- _.
    apply IH in Hl, Hr.
    change (term_size (mkTerm (pick_kind ADD SUB MULT ADD (fst (rng_call g3))) [l; r]))
      with (term_size (Operation (pick_kind ADD SUB MULT ADD (fst (rng_call g3))) [l; r])).
    rewrite term_size_pair.
    replace (Z.to_nat (3 - depth)) with (S (Z.to_nat (3 - (depth + 1)))) by lia.
    cbn [full_size]. lia.
Qed.

Lemma generateArithmetic_depth_le (fuel : nat) (depth : Z) (g g' : G) (t : Ast) :
  generateArithmetic fuel depth g = Some (t, g') ->
  (term_depth t <= Z.to_nat (3 - depth))%nat.
Proof.
  intros Hrun. rewrite generateArithmetic_capped in Hrun.
  apply generateArithmeticWith_depth in Hrun. lia.
Qed.

Lemma generateBooleanExpr_size (fuel : nat) :
  forall depth (g g' : G) (t : Ast),
    generateBooleanExpr fuel depth g = Some (t, g') ->
    (term_size t <= boolean_full_size (Z.to_nat (2 - depth)))%nat /\
    (term_depth t <= Z.to_nat (2 - depth) + 4)%nat.
Proof.
  induction fuel as [|fuel IH]; intros depth g g' t Hrun; [discriminate|].
  cbn [generateBooleanExpr] in Hrun.
  bind_inv Hrun stop g1 Hstop. destruct stop.
  - bind_inv Hrun c g2 Hc. destruct (c mod 2 =? 0).
    + rewrite generateBoolean_eq in Hrun. injection Hrun as <- _.
      split; [|cbn; lia].
      apply Nat.le_trans with (boolean_full_size 0); [cbn; lia|].
      apply boolean_full_size_mono. lia.
    + bind_inv Hrun l g3 Hl. bind_inv Hrun r g4 Hr.
      rewrite build_eq in Hrun. injection Hrun as <- _.
      pose proof (generateArithmetic_size _ _ _ _ _ Hl) as Hsl.
      pose proof (generateArithmetic_size _ _ _ _ _ Hr) as Hsr.
      pose proof (generateArithmetic_depth_le _ _ _ _ _ Hl) as Hdl.
      pose proof (generateArithmetic_depth_le _ _ _ _ _ Hr) as Hdr.
      change (mkTerm (pick_kind GT LT EQUAL EQUAL (fst (rng_call g4))) [l; r])
        with (Operation (pick_kind GT LT EQUAL EQUAL (fst (rng_call g4))) [l; r]).
      rewrite term_size_pair, term_depth_pair.
      change (Z.to_nat (3 - 0)) with 3%nat in *.
      split; [|lia].
      apply Nat.le_trans with (boolean_full_size 0);
        [cbn [boolean_full_size]; lia|].
      apply boolean_full_size_mono. lia.
  - apply stop_here_false in Hstop.
    bind_inv Hrun l g2 Hl. bind_inv Hrun r g3 Hr.
    rewrite build_eq in Hrun. injection Hrun as <- _.
    apply IH in Hl, Hr. destruct Hl as [Hsl Hdl], Hr as [Hsr Hdr].
    change (mkTerm (pick_kind AND OR XOR AND (fst (rng_call g3))) [l; r])
      with (Operation (pick_kind AND OR XOR AND (fst (rng_call g3))) [l; r]).
    rewrite term_size_pair, term_depth_pair.
    replace (Z.to_nat (2 - depth)) with (S (Z.to_nat (2 - (depth + 1)))) by lia.
    cbn [boolean_full_size]. lia.
Qed.

End Sizes.

(** X5.  Generated terms are small.  From a depth argument of 0 or more,
    a term of [generateArithmetic] has at most 15 nodes, and a term of
    [generateBooleanExpr] has at most 127 nodes and depth at most 6: two
    levels of connectives, a comparison, and two arithmetic terms of depth
    at most 3. *)
Theorem generated_terms_are_small {G : Type} `{RandomSource G}
    (fuel : nat) (depth : Z) (g g' : G) (t : Ast) :
  0 <= depth ->
  (generateArithmetic fuel depth g = Some (t, g') -> (term_size t <= 15)%nat) /\
  (generateBooleanExpr fuel depth g = Some (t, g') ->
   (term_size t <= 127)%nat /\ (term_depth t <= 6)%nat).
Proof.
  intros Hdepth. split; intros Hrun.
  - apply generateArithmetic_size in Hrun.
    apply Nat.le_trans with (1 := Hrun).
    apply (full_size_mono _ 3). lia.
  - apply generateBooleanExpr_size in Hrun. destruct Hrun as [Hs Hd].
    split; [|lia].
    apply Nat.le_trans with (1 := Hs).
    apply (boolean_full_size_mono _ 2). lia.
Qed.

Lemma generated_terms_are_small_witness :
  exists (t : Ast) g',
    generateBooleanExpr 7 0 (mt19937.seed 5) = Some (t, g') /\
    term_depth t = 6%nat /\ (term_size t <= 127)%nat /\ (term_depth t <= 6)%nat.
Proof.
  eexists _, _. split; [vm_compute; reflexivity|]. split; [reflexivity|].
  eapply (proj2 (generated_terms_are_small 7 0 (mt19937.seed 5) _ _ (Z.le_refl 0))).
  vm_compute. reflexivity.
Defined.

(** ** What each [checkSat] sees *)

(** What a finished campaign returned. *)
Lemma fuzz_Some {G T : Type} `{RandomSource G} `{TermAPI T}
    (fuel : nat) (N K : Z) (tf tf' : TypeFuzz G T)
    (trace : list (Event T)) (tests : list (list T)) :
  fuzz fuel N K tf = Some (trace, tests, tf') ->
  campaign_terms fuel (Z.to_nat N) (Z.to_nat K) (rng tf) = Some (tests, rng tf') /\
  trace = (header_events ++ tests_events 0 tests ++ footer_events N)%list /\
  solver tf' = match Z.to_nat N with
               | O => solver tf
               | S _ => mkSolver []
               end.
Proof.
  rewrite fuzz_eq.
  destruct (campaign_terms fuel (Z.to_nat N) (Z.to_nat K) (rng tf))
    as [[tests0 g']|]; [|discriminate].
  intros E. injection E as Etrace Etests Etf. subst tests tf'. cbn [rng solver].
  repeat split. now symmetry.
Qed.

Section Isolation.

Context {T : Type} `{TermAPI T}.

Lemma seen_by_checks_app (e1 e2 : list (Event T)) :
  forall s,
    seen_by_checks (e1 ++ e2) s
    = let (seen1, s1) := seen_by_checks e1 s in
      let (seen2, s2) := seen_by_checks e2 s1 in
      ((seen1 ++ seen2)%list, s2).
Proof.
  induction e1 as [|[line|formula| |] e1 IH]; intros s; cbn [app seen_by_checks].
  - now destruct (seen_by_checks e2 s).
  - apply IH.
  - apply IH.
  - rewrite IH.
    destruct (seen_by_checks e1 (snd (checkSat s))) as [seen1 s1].
    now destruct (seen_by_checks e2 s1).
  - apply IH.
Qed.

Lemma seen_by_checks_constraint_events (constraints0 : list T) :
  forall i s,
    seen_by_checks (constraint_events i constraints0) s
    = ([], assert_all constraints0 s).
Proof.
  induction constraints0 as [|c rest IH]; intros i s; [reflexivity|].
  cbn [constraint_events seen_by_checks]. now rewrite IH.
Qed.

Lemma seen_by_checks_test_events (test_num : Z) (constraints0 : list T) (s : Solver T) :
  seen_by_checks (test_events test_num constraints0) s
  = ([(constraints s ++ constraints0)%list], mkSolver []).
Proof.
  unfold test_events. cbn [app seen_by_checks].
  rewrite seen_by_checks_app, seen_by_checks_constraint_events.
  cbn [seen_by_checks checkSat snd resetAssertions app].
  now rewrite assert_all_constraints.
Qed.

Lemma seen_by_checks_tests_events (tests : list (list T)) :
  forall test_num s,
    seen_by_checks (tests_events test_num tests) s
    = (match tests with
       | [] => []
       | first :: rest => (constraints s ++ first)%list :: rest
       end,
       match tests with
       | [] => s
       | _ :: _ => mkSolver []
       end).
Proof.
  induction tests as [|cs rest IH]; intros test_num s; [reflexivity|].
  cbn [tests_events]. rewrite seen_by_checks_app, seen_by_checks_test_events, IH.
  cbn [app constraints]. destruct rest; reflexivity.
Qed.

End Isolation.

(** X6.  Test cases do not see each other's constraints.  Replaying the
    solver calls of a campaign on the solver it started with, the first
    [checkSat] sees what the solver held before the campaign followed by the
    first test's constraints, every later one exactly its own test's
    constraints, and the replay ends in the solver the campaign returns.
    From a solver without constraints, as the constructor leaves it, every
    check sees exactly its own test's constraints, and the campaign leaves
    the solver without constraints again. *)
Theorem checks_see_their_own_test {G T : Type} `{RandomSource G} `{TermAPI T}
    (fuel : nat) (N K : Z) (tf tf' : TypeFuzz G T)
    (trace : list (Event T)) (tests : list (list T)) :
  fuzz fuel N K tf = Some (trace, tests, tf') ->
  seen_by_checks trace (solver tf)
  = (match tests with
     | [] => []
     | first :: rest => (constraints (solver tf) ++ first)%list :: rest
     end, solver tf') /\
  (constraints (solver tf) = [] ->
   fst (seen_by_checks trace (solver tf)) = tests /\
   constraints (solver tf') = []) /\
  (forall entropy,
      constraints (solver (TypeFuzz_new (G := G) (T := T) entropy)) = []).
Proof.
  intros Hrun. apply fuzz_Some in Hrun. destruct Hrun as (Hterms & -> & Hsolver).
  apply campaign_terms_shape in Hterms. destruct Hterms as [Hlen _].
  assert (Hseen : seen_by_checks
                    (header_events ++ tests_events 0 tests ++ footer_events N)
                    (solver tf)
                  = (match tests with
                     | [] => []
                     | first :: rest => (constraints (solver tf) ++ first)%list :: rest
                     end, solver tf')).
  { rewrite Hsolver. unfold header_events. cbn [app seen_by_checks].
    rewrite seen_by_checks_app, seen_by_checks_tests_events.
    unfold footer_events. cbn [seen_by_checks]. rewrite app_nil_r.
    destruct tests, (Z.to_nat N); try discriminate; reflexivity. }
  split; [exact Hseen|]. split; [|reflexivity].
  intros Hempty. rewrite Hseen, Hsolver, Hempty. cbn [fst].
  split; [now destruct tests|]. now destruct (Z.to_nat N).
Qed.

Lemma checks_see_their_own_test_witness :
  exists trace tests tf',
    fuzz 7 3 2 (TypeFuzz_new (G := mt19937.state) (T := Term) 42)
    = Some (trace, tests, tf') /\
    fst (seen_by_checks trace
           (solver (TypeFuzz_new (G := mt19937.state) (T := Term) 42))) = tests /\
    constraints (solver tf') = [].
Proof.
  destruct (fuzz 7 3 2 (TypeFuzz_new (G := mt19937.state) (T := Term) 42))
    as [[[trace tests] tf']|] eqn:Hrun; [|vm_compute in Hrun; discriminate Hrun].
  exists trace, tests, tf'. split; [reflexivity|].
  exact (proj1 (proj2 (checks_see_their_own_test 7 3 2 _ _ _ _ Hrun)) eq_refl).
Defined.

(** ** Campaigns in a row *)

Section InARow.

Context {G T : Type} `{RandomSource G} `{TermAPI T}.

Lemma campaign_terms_app (fuel n1 n2 k : nat) :
  forall g : G,
    campaign_terms (T := T) fuel (n1 + n2) k g
    = match campaign_terms fuel n1 k g with
      | None => None
      | Some (tests1, g1) =>
          match campaign_terms fuel n2 k g1 with
          | None => None
          | Some (tests2, g2) => Some ((tests1 ++ tests2)%list, g2)
          end
      end.
Proof.
  induction n1 as [|n1 IH]; intros g; cbn [Nat.add campaign_terms].
  - now destruct (campaign_terms fuel n2 k g) as [[tests2 g2]|].
  - destruct (boolean_terms fuel k g) as [[ts g1]|]; [|reflexivity].
    rewrite IH.
    destruct (campaign_terms fuel n1 k g1) as [[tests1 g2]|]; [|reflexivity].
    now destruct (campaign_terms fuel n2 k g2) as [[tests2 g3]|].
Qed.

End InARow.

(** X8.  Campaigns compose: a campaign of [N1] tests followed, on the same
    fuzzer, by one of [N2] tests generates the constraints and makes the
    solver calls of a single campaign of [N1 + N2] tests with the same
    [constraintsPerTest], and leaves the random source in the same state. *)
Theorem campaigns_in_a_row {G T : Type} `{RandomSource G} `{TermAPI T}
    (fuel : nat) (N1 N2 K : Z) (tf tf1 tf2 : TypeFuzz G T)
    (trace1 trace2 : list (Event T)) (tests1 tests2 : list (list T)) :
  0 <= N1 -> 0 <= N2 ->
  fuzz fuel N1 K tf = Some (trace1, tests1, tf1) ->
  fuzz fuel N2 K tf1 = Some (trace2, tests2, tf2) ->
  exists trace tf',
    fuzz fuel (N1 + N2) K tf = Some (trace, (tests1 ++ tests2)%list, tf') /\
    rng tf' = rng tf2 /\
    solver_calls trace = (solver_calls trace1 ++ solver_calls trace2)%list.
Proof.
  intros HN1 HN2 Hrun1 Hrun2.
  apply fuzz_Some in Hrun1, Hrun2.
  destruct Hrun1 as (Hterms1 & -> & _), Hrun2 as (Hterms2 & -> & _).
  rewrite fuzz_eq.
  replace (Z.to_nat (N1 + N2)) with (Z.to_nat N1 + Z.to_nat N2)%nat by lia.
  rewrite campaign_terms_app, Hterms1, Hterms2.
  eexists _, _. split; [reflexivity|]. split; [reflexivity|].
  rewrite !solver_calls_app, !solver_calls_tests_events, flat_map_app.
  cbn. now rewrite !app_nil_r.
Qed.

Lemma campaigns_in_a_row_witness :
  exists trace1 tests1 tf1 trace2 tests2 tf2 trace tf',
    fuzz 7 1 2 (TypeFuzz_new (G := mt19937.state) (T := Term) 42)
    = Some (trace1, tests1, tf1) /\
    fuzz 7 2 2 tf1 = Some (trace2, tests2, tf2) /\
    fuzz 7 3 2 (TypeFuzz_new (G := mt19937.state) (T := Term) 42)
    = Some (trace, (tests1 ++ tests2)%list, tf') /\
    rng tf' = rng tf2.
Proof.
  destruct (fuzz 7 1 2 (TypeFuzz_new (G := mt19937.state) (T := Term) 42))
    as [[[trace1 tests1] tf1]|] eqn:Hrun1; [|vm_compute in Hrun1; discriminate Hrun1].
  destruct (fuzz 7 2 2 tf1)
    as [[[trace2 tests2] tf2]|] eqn:Hrun2.
  2: { apply fuzz_Some in Hrun1. destruct Hrun1 as (Hterms1 & _ & _).
       rewrite fuzz_eq in Hrun2.
       destruct (campaign_terms_returns (T := Term) 7 (Z.to_nat 2) (Z.to_nat 2)
                   ltac:(vm_compute; lia) (rng tf1)) as (ts & g2 & Hts).
       rewrite Hts in Hrun2. discriminate Hrun2. }
  destruct (campaigns_in_a_row 7 1 2 2 _ _ _ _ _ _ _ ltac:(lia) ltac:(lia) Hrun1 Hrun2)
    as (trace & tf' & Hrun & Hrng & _).
  exists trace1, tests1, tf1, trace2, tests2, tf2, trace, tf'. auto.
Defined.

(** ** The constraints of a campaign, read back *)

(** X7.  Every constraint a campaign of the source's fuzzer asserts and
    prints is a well-formed, well-typed formula: its string reads back as a
    tree, the tree is Boolean-typed under the recursive type check, and it
    prints as that string again. *)
Theorem campaign_constraints_read_back_typed {G : Type} `{RandomSource G}
    (fuel : nat) (N K : Z) (tf tf' : TypeFuzz G Term)
    (trace : list (Event Term)) (tests : list (list Term)) :
  fuzz fuel N K tf = Some (trace, tests, tf') ->
  Forall (Forall (fun s : Term =>
                    exists t : Ast,
                      parse (value s) = Some t /\
                      typeOf t = Some Boolean /\
                      render t = value s)) tests.
Proof.
  intros Hrun. apply fuzz_Some in Hrun. destruct Hrun as (Hterms & _ & _).
  destruct (mock_campaign_prints_typed_trees _ _ _ _ _ _ Hterms)
    as (trees & _ & Hprint & Htyped).
  clear Hterms. revert Htyped.
  induction Hprint as [|ts ss trees tests Hts _ IH]; intros Htyped; [constructor|].
  inversion Htyped as [|? ? Hfirst Hrest]; subst.
  constructor; [|now apply IH].
  clear IH Hrest Htyped.
  induction Hts as [|t s ts ss Hst _ IHts]; [constructor|].
  inversion Hfirst as [|? ? Ht Hts']; subst.
  constructor; [|now apply IHts].
  exists t. rewrite <- Hst. auto using parse_render.
Qed.

Lemma campaign_constraints_read_back_typed_witness :
  exists trace tests tf',
    fuzz 7 3 2 (TypeFuzz_new (G := mt19937.state) (T := Term) 42)
    = Some (trace, tests, tf') /\
    Forall (Forall (fun s : Term =>
                      exists t : Ast,
                        parse (value s) = Some t /\
                        typeOf t = Some Boolean /\
                        render t = value s)) tests.
Proof.
  destruct (fuzz 7 3 2 (TypeFuzz_new (G := mt19937.state) (T := Term) 42))
    as [[[trace tests] tf']|] eqn:Hrun; [|vm_compute in Hrun; discriminate Hrun].
  exists trace, tests, tf'. split; [reflexivity|].
  exact (campaign_constraints_read_back_typed 7 3 2 _ _ _ _ Hrun).
Defined.

(** ** The lines of the report *)

Section ReportLength.

Local Open Scope string_scope.

Lemma count_newlines_app (a b : string) :
  count_newlines (a ++ b) = (count_newlines a + count_newlines b)%nat.
Proof. induction a as [|x a IH]; cbn; [reflexivity|rewrite IH; lia]. Qed.

Lemma stdout_app {T : Type} (e1 e2 : list (Event T)) :
  stdout (e1 ++ e2) = stdout e1 ++ stdout e2.
Proof.
  induction e1 as [|[line|formula| |] e1 IH]; cbn [app stdout]; try assumption.
  - reflexivity.
  - now rewrite IH, append_assoc.
Qed.

Lemma number_no_newline (s : string) :
  string_forall is_number_char s = true -> count_newlines s = O.
Proof.
  induction s as [|x s IH]; cbn; [reflexivity|].
  intros Hs. apply andb_prop in Hs. destruct Hs as [Hx Hs].
  rewrite (IH Hs).
  destruct (Ascii.eqb_spec x "010"%char) as [->|_]; [discriminate Hx|reflexivity].
Qed.

Lemma to_string_no_newline (v : Z) : count_newlines (to_string v) = O.
Proof. apply number_no_newline, to_string_number. Qed.

Lemma spaced_no_newline (children : list string) :
  Forall (fun c => count_newlines c = O) children ->
  count_newlines (spaced children) = O.
Proof.
  induction 1 as [|c rest Hc _ IH]; [reflexivity|].
  cbn [spaced]. rewrite !count_newlines_app, Hc, IH. reflexivity.
Qed.

(** A printed term holds no newline. *)
Lemma render_no_newline (t : Ast) : count_newlines (render t) = O.
Proof.
  induction t as [v|b|kind children IH] using Ast_induction.
  - apply to_string_no_newline.
  - now destruct b.
  - rewrite render_Operation, !count_newlines_app, spaced_no_newline.
    + now destruct kind.
    + now apply Forall_map.
Qed.

Lemma constraint_events_lines (constraints0 : list Term) :
  Forall (fun s => count_newlines (value s) = O) constraints0 ->
  forall i,
    count_newlines (stdout (constraint_events i constraints0))
    = List.length constraints0.
Proof.
  induction 1 as [|c rest Hc _ IH]; intros i; [reflexivity|].
  cbn [constraint_events stdout List.length].
  rewrite !count_newlines_app, IH, to_string_no_newline.
  cbn [toString Mock]. rewrite Hc. cbn. lia.
Qed.

Lemma test_events_lines (test_num : Z) (constraints0 : list Term) :
  Forall (fun s => count_newlines (value s) = O) constraints0 ->
  count_newlines (stdout (test_events test_num constraints0))
  = (6 + List.length constraints0)%nat.
Proof.
  intros Hc. unfold test_events.
  rewrite !stdout_app, !count_newlines_app, (constraint_events_lines _ Hc).
  cbn [stdout]. rewrite !count_newlines_app, to_string_no_newline.
  cbn. lia.
Qed.

Lemma tests_events_lines (tests : list (list Term)) (k : nat) :
  Forall (Forall (fun s => count_newlines (value s) = O)) tests ->
  Forall (fun cs => List.length cs = k) tests ->
  forall test_num,
    count_newlines (stdout (tests_events test_num tests))
    = (List.length tests * (6 + k))%nat.
Proof.
  induction 1 as [|cs rest Hcs _ IH]; intros Hlen test_num; [reflexivity|].
  inversion Hlen as [|? ? Hk Hrest]; subst.
  cbn [tests_events List.length].
  rewrite stdout_app, count_newlines_app, (test_events_lines _ _ Hcs), (IH Hrest).
  lia.
Qed.

End ReportLength.

(** X9.  The report of a campaign of the source's fuzzer has exactly
    [8 + n * (6 + k)] lines, for [n] test cases of [k] constraints ([n] and
    [k] being [numTests] and [constraintsPerTest], or 0 when negative):
    four lines of header, four of footer, and per test case six lines and
    one line per constraint, because no printed term holds a newline. *)
Theorem report_line_count {G : Type} `{RandomSource G}
    (fuel : nat) (N K : Z) (tf tf' : TypeFuzz G Term)
    (trace : list (Event Term)) (tests : list (list Term)) :
  fuzz fuel N K tf = Some (trace, tests, tf') ->
  count_newlines (stdout trace) = (8 + Z.to_nat N * (6 + Z.to_nat K))%nat.
Proof.
  intros Hrun. apply fuzz_Some in Hrun. destruct Hrun as (Hterms & -> & _).
  destruct (mock_campaign_prints_typed_trees _ _ _ _ _ _ Hterms)
    as (trees & _ & Hprint & _).
  assert (Hlines : Forall (Forall (fun s => count_newlines (value s) = O)) tests).
  { clear Hterms. induction Hprint as [|ts ss trees tests Hts _ IH]; constructor;
      [|exact IH].
    induction Hts as [|t s ts ss Hst _ IHts]; constructor; [|exact IHts].
    rewrite <- Hst. apply render_no_newline. }
  apply campaign_terms_shape in Hterms. destruct Hterms as [Hlen Hall].
  rewrite !stdout_app, !count_newlines_app.
  rewrite (tests_events_lines tests (Z.to_nat K) Hlines Hall 0), Hlen.
  unfold header_events, footer_events. cbn [stdout].
  rewrite !count_newlines_app, to_string_no_newline. cbn. lia.
Qed.

Lemma report_line_count_witness :
  exists trace tests tf',
    fuzz 7 3 2 (TypeFuzz_new (G := mt19937.state) (T := Term) 42)
    = Some (trace, tests, tf') /\
    count_newlines (stdout trace) = 32%nat.
Proof.
  destruct (fuzz 7 3 2 (TypeFuzz_new (G := mt19937.state) (T := Term) 42))
    as [[[trace tests] tf']|] eqn:Hrun; [|vm_compute in Hrun; discriminate Hrun].
  exists trace, tests, tf'. split; [reflexivity|].
  exact (report_line_count 7 3 2 _ _ _ _ Hrun).
Defined.

(** ** How long a printed constraint can be *)

Section PrintedLength.

Local Open Scope string_scope.

Lemma to_string_length (v : Z) :
  -100 <= v <= 100 -> (String.length (to_string v) <= 4)%nat.
Proof.
  intros Hv.
  assert (Hall : forallb (fun z => (String.length (to_string z) <=? 4)%nat)
                   (map (fun n => Z.of_nat n - 100) (seq 0 201)) = true)
    by (vm_compute; reflexivity).
  rewrite forallb_forall in Hall.
  apply Nat.leb_le, Hall, in_map_iff.
  exists (Z.to_nat (v + 100)). split; [lia|]. apply in_seq. lia.
Qed.

Lemma render_pair_length (kind : Kind) (l r : Ast) :
  String.length (render (Operation kind [l; r]))
  = (String.length (kind_str kind) + 4
     + String.length (render l) + String.length (render r))%nat.
Proof.
  rewrite render_Operation, !length_append, length_spaced.
  cbn [map List.length String.length].
  change (list_sum [String.length (render l); String.length (render r)])
    with (String.length (render l) + (String.length (render r) + 0))%nat.
  lia.
Qed.

Lemma arithmetic_length_mono (m n : nat) :
  (m <= n)%nat -> (arithmetic_length m <= arithmetic_length n)%nat.
Proof. induction 1 as [|n _ IH]; [lia|]. cbn [arithmetic_length]. lia. Qed.

Lemma boolean_length_mono (m n : nat) :
  (m <= n)%nat -> (boolean_length m <= boolean_length n)%nat.
Proof. induction 1 as [|n _ IH]; [lia|]. cbn [boolean_length]. lia. Qed.

Context {G : Type} `{RandomSource G} `{!RandomSourceLaws G}.

Lemma generateArithmetic_length (fuel : nat) :
  forall depth (g g' : G) (t : Ast),
    generateArithmetic fuel depth g = Some (t, g') ->
    (String.length (render t) <= arithmetic_length (Z.to_nat (3 - depth)))%nat.
Proof.
  induction fuel as [|fuel IH]; intros depth g g' t Hrun; [discriminate|].
  cbn [generateArithmetic] in Hrun.
  bind_inv Hrun stop g1 Hstop. destruct stop.
  - rewrite generateInteger_eq in Hrun. injection Hrun as <- _.
    apply Nat.le_trans with (arithmetic_length 0);
      [|apply arithmetic_length_mono; lia].
    apply to_string_length, dist_call_range. lia.
  - apply stop_here_false in Hstop.
    bind_inv Hrun l g2 Hl. bind_inv Hrun r g3 Hr.
    rewrite build_eq in Hrun. injection Hrun as <- _.
    apply IH in Hl, Hr.
    change (mkTerm (pick_kind ADD SUB MULT ADD (fst (rng_call g3))) [l; r])
      with (Operation (pick_kind ADD SUB MULT ADD (fst (rng_call g3))) [l; r]).
    rewrite render_pair_length.
    replace (Z.to_nat (3 - depth)) with (S (Z.to_nat (3 - (depth + 1)))) by lia.
    cbn [arithmetic_length].
    destruct (pick_kind_cases ADD SUB MULT ADD (fst (rng_call g3))) as [-> | [-> | ->]];
      cbn [kind_str String.length]; lia.
Qed.

Lemma generateBooleanExpr_length (fuel : nat) :
  forall depth (g g' : G) (t : Ast),
    generateBooleanExpr fuel depth g = Some (t, g') ->
    (String.length (render t) <= boolean_length (Z.to_nat (2 - depth)))%nat.
Proof.
  induction fuel as [|fuel IH]; intros depth g g' t Hrun; [discriminate|].
  cbn [generateBooleanExpr] in Hrun.
  bind_inv Hrun stop g1 Hstop. destruct stop.
  - apply Nat.le_trans with (boolean_length 0); [|apply boolean_length_mono; lia].
    bind_inv Hrun c g2 Hc. destruct (c mod 2 =? 0)%Z.
    + rewrite generateBoolean_eq in Hrun. injection Hrun as <- _.
      cbn [boolean_length]. destruct (fst (rng_call g2) mod 2 =? 1)%Z; cbn; lia.
    + bind_inv Hrun l g3 Hl. bind_inv Hrun r g4 Hr.
      rewrite build_eq in Hrun. injection Hrun as <- _.
      apply generateArithmetic_length in Hl, Hr.
      change (Z.to_nat (3 - 0)) with 3%nat in *.
      change (mkTerm (pick_kind GT LT EQUAL EQUAL (fst (rng_call g4))) [l; r])
        with (Operation (pick_kind GT LT EQUAL EQUAL (fst (rng_call g4))) [l; r]).
      rewrite render_pair_length. cbn [boolean_length].
      destruct (pick_kind_cases GT LT EQUAL EQUAL (fst (rng_call g4)))
        as [-> | [-> | ->]]; cbn [kind_str String.length]; lia.
  - apply stop_here_false in Hstop.
    bind_inv Hrun l g2 Hl. bind_inv Hrun r g3 Hr.
    rewrite build_eq in Hrun. injection Hrun as <- _.
    apply IH in Hl, Hr.
    change (mkTerm (pick_kind AND OR XOR AND (fst (rng_call g3))) [l; r])
      with (Operation (pick_kind AND OR XOR AND (fst (rng_call g3))) [l; r]).
    rewrite render_pair_length.
    replace (Z.to_nat (2 - depth)) with (S (Z.to_nat (2 - (depth + 1)))) by lia.
    cbn [boolean_length].
    destruct (pick_kind_cases AND OR XOR AND (fst (rng_call g3))) as [-> | [-> | ->]];
      cbn [kind_str String.length]; lia.
Qed.

End PrintedLength.

(** X10.  A printed constraint is short: from a depth argument of 0 or
    more, the string the mock builds for a term of [generateArithmetic] has
    at most 67 characters and the one for a term of [generateBooleanExpr] at
    most 577, given that [uniform_int_distribution] keeps to its range (a
    literal then prints in at most four characters). *)
Theorem printed_terms_are_short {G : Type} `{RandomSource G}
    `{!RandomSourceLaws G} (fuel : nat) (depth : Z) (g g' : G) (s : Term) :
  0 <= depth ->
  (generateArithmetic fuel depth g = Some (s, g') ->
   (String.length (value s) <= 67)%nat) /\
  (generateBooleanExpr fuel depth g = Some (s, g') ->
   (String.length (value s) <= 577)%nat).
Proof.
  intros Hdepth. split; intros Hrun.
  - destruct (generateArithmetic_prints_tree _ _ _ _ _ Hrun) as (t & Ht & <-).
    apply generateArithmetic_length in Ht.
    apply Nat.le_trans with (1 := Ht).
    apply (arithmetic_length_mono _ 3). lia.
  - destruct (generateBooleanExpr_prints_tree _ _ _ _ _ Hrun) as (t & Ht & <-).
    apply generateBooleanExpr_length in Ht.
    apply Nat.le_trans with (1 := Ht).
    apply (boolean_length_mono _ 2). lia.
Qed.

Lemma printed_terms_are_short_witness :
  exists (s : Term) g',
    generateBooleanExpr 7 0 (mt19937.seed 3) = Some (s, g') /\
    (String.length (value s) <= 577)%nat.
Proof.
  eexists _, _. split; [vm_compute; reflexivity|].
  eapply (proj2 (printed_terms_are_short 7 0 (mt19937.seed 3) _ _ (Z.le_refl 0))).
  vm_compute. reflexivity.
Defined.
